(** * char_freq: character-frequency scanner

    A shallow embedding of [char_freq.py] and the properties of its three
    functions [should_skip_file], [scan_repo] and [print_results].

    Conventions of the embedding:
    - a Python [str] is the list of its code points ([pystr]);
    - a Python [int] that counts something is a [nat]; the [--top] option,
      which [argparse] parses with [type=int], is a [Z];
    - a Python [float] is an IEEE-754 binary64 value ([spec_float] at
      precision 53);
    - code that can raise returns a [result];
    - the file system is an explicit argument: a directory tree for
      [os.walk] and a read outcome for every path handed to [open];
    - paths follow the POSIX flavour of [pathlib] and [os.path]. *)

From Stdlib Require Import Ascii String.
From Stdlib Require Import List Bool Arith ZArith NArith Lia Permutation
  Sorted SpecFloat.
Import ListNotations.

Set Implicit Arguments.

(** ** Strings *)

Definition char := N.
Definition pystr := list char.

(** An ASCII literal of the source as a [pystr]. *)
Definition lit (s : string) : pystr :=
  map N_of_ascii (list_ascii_of_string s).

Fixpoint str_eqb (a b : pystr) : bool :=
  match a, b with
  | [], [] => true
  | x :: a', y :: b' => N.eqb x y && str_eqb a' b'
  | _, _ => false
  end.

(** [s in set] for a set of strings; the order of the elements is
    immaterial to membership. *)
Definition str_in (s : pystr) (set : list pystr) : bool :=
  existsb (str_eqb s) set.

Definition SEP : char := 47%N.        (* '/' *)
Definition DOT : char := 46%N.        (* '.' *)
Definition NL : char := 10%N.         (* '\n' *)
Definition SPACE : char := 32%N.      (* ' ' *)
Definition QUOTE : char := 39%N.      (* the single quote *)
Definition BACKSLASH : char := 92%N.  (* '\' *)

(** [s.split(sep)] for a one-character separator. *)
Fixpoint split (sep : char) (s : pystr) : list pystr :=
  match s with
  | [] => [[]]
  | c :: s' =>
      if N.eqb c sep then [] :: split sep s'
      else match split sep s' with
           | w :: ws => (c :: w) :: ws
           | [] => [[c]]
           end
  end.

(** [s.lstrip(c)] *)
Fixpoint lstrip (c : char) (s : pystr) : pystr :=
  match s with
  | x :: s' => if N.eqb x c then lstrip c s' else s
  | [] => []
  end.

(** [s.rfind(c)]: the index of the last occurrence, [None] for -1. *)
Fixpoint rfind (c : char) (s : pystr) : option nat :=
  match s with
  | [] => None
  | x :: s' =>
      match rfind c s' with
      | Some i => Some (S i)
      | None => if N.eqb x c then Some 0 else None
      end
  end.

Definition is_ascii (c : char) : bool := N.ltb c 128.

Definition ascii_tolower (c : char) : char :=
  if N.leb 65 c && N.leb c 90 then (c + 32)%N else c.

(** ** os.path and pathlib, POSIX flavour *)

Definition startswith_sep (s : pystr) : bool :=
  match s with
  | c :: _ => N.eqb c SEP
  | [] => false
  end.

Definition endswith_sep (s : pystr) : bool :=
  match rev s with
  | c :: _ => N.eqb c SEP
  | [] => false
  end.

(** [os.path.join(a, b)] *)
Definition path_join (a b : pystr) : pystr :=
  if startswith_sep b then b
  else match a with
       | [] => b
       | _ => if endswith_sep a then a ++ b else a ++ SEP :: b
       end.

(** The root of a path: [''], ['/'], or ['//'] for exactly two leading
    slashes. *)
Definition path_root (p : pystr) : pystr :=
  if startswith_sep p then
    if Nat.eqb (length p - length (lstrip SEP p)) 2 then [SEP; SEP]
    else [SEP]
  else [].

(** The components after the root: empty ones and ['.'] are dropped. *)
Definition path_tail (p : pystr) : list pystr :=
  filter (fun x => negb (str_eqb x []) && negb (str_eqb x [DOT]))
         (split SEP (lstrip SEP p)).

(** [Path(p).parts] *)
Definition parts (p : pystr) : list pystr :=
  match path_root p with
  | [] => path_tail p
  | r => r :: path_tail p
  end.

(** [Path(p).name] *)
Definition name (p : pystr) : pystr := last (path_tail p) [].

(** [Path(p).suffix]: the last dot of the name and what follows it, when
    that dot is neither the first nor the last character of the name. *)
Definition suffix (p : pystr) : pystr :=
  let n := name p in
  match rfind DOT n with
  | Some i => if Nat.ltb 0 i && Nat.ltb i (length n - 1) then skipn i n else []
  | None => []
  end.

(** ** Floats and their text forms *)

Module PyFloat.

Local Open Scope Z_scope.

Definition float := spec_float.
Definition prec : Z := 53.
Definition emax : Z := 1024.

Definition of_Z (z : Z) : float := binary_normalize prec emax z 0 false.
Definition mul (x y : float) : float := SFmul prec emax x y.

(** [a / b] on non-negative ints with [b] non-zero: the quotient rounded once
    to the nearest float. *)
Definition div_nat (a b : nat) : float :=
  match Z.of_nat a, Z.of_nat b with
  | Zpos ma, Zpos mb =>
      SFdiv prec emax (S754_finite false ma 0) (S754_finite false mb 0)
  | _, _ => S754_zero false
  end.

Definition digit (d : Z) : char := Z.to_N (48 + d).

Fixpoint digits_fuel (fuel : nat) (z : Z) (acc : pystr) : pystr :=
  match fuel with
  | O => acc
  | S f =>
      if Z.ltb z 10 then digit z :: acc
      else digits_fuel f (z / 10) (digit (z mod 10) :: acc)
  end.

(** [str(z)] for a non-negative int. *)
Definition str_Z (z : Z) : pystr :=
  digits_fuel (S (Z.to_nat (Z.log2 z))) z [].

Definition str_nat (n : nat) : pystr := str_Z (Z.of_nat n).

(** The exact value of a positive finite float [m * 2^e] as a fraction. *)
Definition frac (m : positive) (e : Z) : Z * Z :=
  if Z.leb 0 e then (Zpos m * 2 ^ e, 1) else (Zpos m, 2 ^ (- e)).

(** Comparison of the decimal [k * 10^q] with the fraction [r / d]. *)
Definition cmp_dec (k q r d : Z) : comparison :=
  Z.compare (k * 10 ^ (Z.max q 0) * d) (r * 10 ^ (Z.max (- q) 0)).

(** [floor ((r / d) / 10^q)] *)
Definition floor_dec (q r d : Z) : Z :=
  (r * 10 ^ (Z.max (- q) 0)) / (d * 10 ^ (Z.max q 0)).

Fixpoint decpt_up (fuel : nat) (p r d : Z) : Z :=
  match fuel with
  | O => p
  | S f => match cmp_dec 1 p r d with
           | Gt => p
           | _ => decpt_up f (p + 1) r d
           end
  end.

(** The decimal point of [r / d]: the [p] with [10^(p-1) <= r/d < 10^p]. *)
Definition decpt (m : positive) (e : Z) : Z :=
  let (r, d) := frac m e in
  let b := Zpos (digits2_pos m) + e in
  decpt_up 8 ((b - 1) * 30103 / 100000 - 2) r d.

(** The rounding interval of the float [m * 2^e], in units of [2^(e-2)]:
    every real strictly inside it, and its ends when [m] is even, rounds to
    the float. *)
Definition interval (m : positive) (e : Z) : Z * Z :=
  let lo := if Pos.eqb m (2 ^ 52) && Z.ltb (3 - emax - prec) e
            then 4 * Zpos m - 1 else 4 * Zpos m - 2 in
  (lo, 4 * Zpos m + 2).

Definition inside (m : positive) (e : Z) (k q : Z) : bool :=
  let (lo, hi) := interval m e in
  let cl := let (r, d) := frac (Z.to_pos lo) (e - 2) in cmp_dec k q r d in
  let ch := let (r, d) := frac (Z.to_pos hi) (e - 2) in cmp_dec k q r d in
  let even := Z.even (Zpos m) in
  match cl, ch with
  | Gt, Lt => true
  | Eq, _ => even
  | _, Eq => even
  | _, _ => false
  end.

(** The shortest digit string that reads back as the float, the nearest
    to it among those of that length: the digits as an integer [k] and the
    exponent [q], for the decimal [k * 10^q]. *)
Fixpoint shortest (fuel : nat) (n : Z) (m : positive) (e : Z) : Z * Z :=
  let (r, d) := frac m e in
  let q := decpt m e - n in
  let k := floor_dec q r d in
  match fuel with
  | O => (k, q)
  | S f =>
      let up := match cmp_dec (2 * k + 1) q (2 * r) d with
                | Lt => true
                | Eq => Z.odd k
                | Gt => false
                end in
      match inside m e k q, inside m e (k + 1) q with
      | true, true => if up then (k + 1, q) else (k, q)
      | true, false => (k, q)
      | false, true => (k + 1, q)
      | false, false => shortest f (n + 1) m e
      end
  end.

Fixpoint strip_zeros (fuel : nat) (k : Z) : Z :=
  match fuel with
  | O => k
  | S f => if Z.eqb (k mod 10) 0 then strip_zeros f (k / 10) else k
  end.

Definition zeros (n : Z) : pystr := repeat 48%N (Z.to_nat n).

(** The body of [repr] for a positive finite float. *)
Definition repr_pos (m : positive) (e : Z) : pystr :=
  let (k, q) := shortest 17 1 m e in
  let pt := q + Z.of_nat (length (str_Z k)) in
  let ds := str_Z (strip_zeros 20 k) in
  let nd := Z.of_nat (length ds) in
  if Z.leb pt (-4) || Z.ltb 16 pt then
    let x := pt - 1 in
    let mant := match ds with
                | d1 :: (_ :: _) as rest => d1 :: DOT :: rest
                | _ => ds
                end in
    let ex := str_Z (Z.abs x) in
    mant ++ lit "e" ++ (if Z.ltb x 0 then lit "-" else lit "+")
         ++ (if Z.ltb (Z.abs x) 10 then 48%N :: ex else ex)
  else if Z.leb pt 0 then lit "0." ++ zeros (- pt) ++ ds
  else if Z.leb nd pt then ds ++ zeros (pt - nd) ++ lit ".0"
  else firstn (Z.to_nat pt) ds ++ DOT :: skipn (Z.to_nat pt) ds.

Definition sign (s : bool) : pystr := if s then lit "-" else [].

(** [repr(x)], which is also [str(x)]. *)
Definition repr (x : float) : pystr :=
  match x with
  | S754_zero s => sign s ++ lit "0.0"
  | S754_infinity s => sign s ++ lit "inf"
  | S754_nan => lit "nan"
  | S754_finite s m e => sign s ++ repr_pos m e
  end.

(** [format(x, '.2f')]: the exact value rounded to hundredths, halves to
    even. *)
Definition fixed2 (x : float) : pystr :=
  match x with
  | S754_zero s => sign s ++ lit "0.00"
  | S754_infinity s => sign s ++ lit "inf"
  | S754_nan => lit "nan"
  | S754_finite s m e =>
      let (r, d) := frac m e in
      let y := (100 * r) / d in
      let h := match Z.compare (2 * ((100 * r) mod d)) d with
               | Lt => y
               | Eq => if Z.even y then y else y + 1
               | Gt => y + 1
               end in
      let c := h mod 100 in
      sign s ++ str_Z (h / 100) ++ DOT :: digit (c / 10) :: [digit (c mod 10)]
  end.

(** Padding to a minimum width: numbers to the right, strings to the
    left. *)
Definition rjust (w : nat) (s : pystr) : pystr :=
  repeat 32%N (w - length s)%nat ++ s.

Definition ljust (w : nat) (s : pystr) : pystr :=
  s ++ repeat 32%N (w - length s)%nat.

Fixpoint group3 (fuel : nat) (z : Z) (acc : pystr) : pystr :=
  match fuel with
  | O => acc
  | S f =>
      if Z.ltb z 1000 then str_Z z ++ acc
      else let c := z mod 1000 in
           group3 f (z / 1000)
                  (44%N :: digit (c / 100) :: digit (c / 10 mod 10)
                        :: digit (c mod 10) :: acc)
  end.

(** [format(n, ',')]: the decimal digits grouped by thousands. *)
Definition commas (n : nat) : pystr :=
  group3 (S (Z.to_nat (Z.log2 (Z.of_nat n)))) (Z.of_nat n) [].

End PyFloat.

(** ** Exceptions *)

(** The classes of exception that the program meets.  [OtherError] stands
    for any class that is none of the named ones nor a subclass of them
    ([IsADirectoryError], a bare [OSError], ...). *)
Inductive exn_class :=
| UnicodeDecodeError
| PermissionError
| FileNotFoundError
| ZeroDivisionError
| OtherError (cls : pystr).

(** An exception: its class and [str(e)]. *)
Record exn := { exn_cls : exn_class; exn_str : pystr }.

Inductive result (A : Type) :=
| Ok (a : A)
| Raise (e : exn).
Arguments Ok {A} a.
Arguments Raise {A} e.

Definition bind {A B} (r : result A) (k : A -> result B) : result B :=
  match r with
  | Ok a => k a
  | Raise e => Raise e
  end.

Notation "x <- r ;; k" := (bind r (fun x => k))
  (at level 61, r at next level, right associativity).

(** ** Counter *)

(** A [Counter] is a dict: its items in insertion order, keys unique. *)
Definition Counter := list (char * nat).

Fixpoint get (cnt : Counter) (c : char) : option nat :=
  match cnt with
  | [] => None
  | (k, v) :: rest => if N.eqb k c then Some v else get rest c
  end.

(** [cnt[c] = cnt.get(c, 0) + 1]: an existing key keeps its position, a new
    key goes last. *)
Fixpoint incr (c : char) (cnt : Counter) : Counter :=
  match cnt with
  | [] => [(c, 1)]
  | (k, v) :: rest =>
      if N.eqb k c then (k, S v) :: rest else (k, v) :: incr c rest
  end.

(** [cnt.update(content)] for an iterable of characters. *)
Definition update (cnt : Counter) (content : pystr) : Counter :=
  fold_left (fun acc c => incr c acc) content cnt.

(** [sum(cnt.values())] *)
Definition total (cnt : Counter) : nat := list_sum (map snd cnt).

(** [sorted(items, key=itemgetter(1), reverse=True)]: descending by count,
    items of equal count in their original order. *)
Fixpoint insert_desc (x : char * nat) (l : list (char * nat)) :=
  match l with
  | [] => [x]
  | y :: l' =>
      if Nat.ltb (snd x) (snd y) then y :: insert_desc x l' else x :: l
  end.

Definition most_common (cnt : Counter) : list (char * nat) :=
  fold_right insert_desc [] cnt.

(** ** The file system *)

(** A directory entry as [os.walk] sees it: anything that is not a
    directory, a directory with the outcome of listing it ([None] when
    [scandir] raises [OSError]), or a symbolic link to a directory. *)
#[local] Set Warnings "-register-all".
Inductive node :=
| File
| Dir (listing : option (list (pystr * node)))
| DirLink.
#[local] Set Warnings "register-all".

Definition is_dir (n : node) : bool :=
  match n with
  | File => false
  | _ => true
  end.

Definition walk_entry := (pystr * list pystr * list pystr)%type.

(** [os.walk(top)] below a resolved node, top-down, with [onerror=None] and
    [followlinks=False]: a directory that cannot be listed yields nothing,
    and a link to a directory is reported but not entered. *)
Fixpoint walk (top : pystr) (n : node) : list walk_entry :=
  match n with
  | Dir (Some entries) =>
      (top,
       map fst (filter (fun e => is_dir (snd e)) entries),
       map fst (filter (fun e => negb (is_dir (snd e))) entries))
      :: (fix subdirs (es : list (pystr * node)) : list walk_entry :=
            match es with
            | [] => []
            | (nm, child) :: es' => walk (path_join top nm) child ++ subdirs es'
            end) entries
  | _ => []
  end.

(** What the program sees of the file system: what a path given to
    [os.walk] resolves to ([None] when nothing is there), and the outcome
    of [open(path, 'r', encoding='utf-8')] followed by [read()]. *)
Record filesystem := {
  resolve : pystr -> option node;
  read_text : pystr -> result pystr
}.

Definition os_walk (fs : filesystem) (top : pystr) : list walk_entry :=
  match resolve fs top with
  | Some n => walk top n
  | None => []
  end.

(** ** Character classes *)

(** [c.isspace()] *)
Definition isspace (c : char) : bool :=
  (N.leb 9 c && N.leb c 13) || (N.leb 28 c && N.leb c 32)
  || N.eqb c 133 || N.eqb c 160 || N.eqb c 5760
  || (N.leb 8192 c && N.leb c 8202)
  || N.eqb c 8232 || N.eqb c 8233 || N.eqb c 8239 || N.eqb c 8287
  || N.eqb c 12288.

(** ** The filter *)

Definition skip_extensions : list pystr := map lit
  [ ".pyc"; ".exe"; ".dll"; ".so"; ".dylib"; ".json";
    ".jpg"; ".jpeg"; ".png"; ".gif"; ".ico"; ".svg";
    ".pdf"; ".zip"; ".tar"; ".gz"; ".7z"; ".webp";
    ".mp3"; ".mp4"; ".avi"; ".mov"; ".yaml"; ".jar";
    ".ttf"; ".woff"; ".woff2"; ".cursorrules"; ".ipynb";
    ".pkl"; ".h5"; ".model"; ".txt"; ".class"; ".tree" ]%string.

Definition skip_dirs : list pystr := map lit
  [ "node_modules"; "venv"; "env"; ".git"; ".svelte-kit"; ".mvn";
    "__pycache__"; "build"; "dist"; ".idea"; ".husky"; ".turbo" ]%string.

(** ** Data of the scanner and of the report *)

Record ScanResult := {
  char_count : Counter;
  file_count : nat;
  error_files : list (pystr * pystr)
}.

Definition empty_scan : ScanResult :=
  {| char_count := []; file_count := 0; error_files := [] |}.

Record options := {
  top_n : Z;
  show_spaces : bool;
  save_csv : bool;
  exclude_letters : bool
}.

(** An element of [results]: [(char_display, count, percentage)]. *)
Record row := {
  row_display : pystr;
  row_count : nat;
  row_percentage : PyFloat.float
}.

(** What [print_results] leaves behind: the argument of every [print]
    call in order, the [results] list, and the file handed to [csv.writer]
    as its path and its rows of fields, each field in the text form that
    the writer gives it ([str] of a value that is not a string). *)
Record report := {
  stdout : list pystr;
  results : list row;
  csv_file : option (pystr * list (list pystr))
}.

(** Closes [~ In c s] for a literal [s]. *)
Ltac not_in :=
  let H := fresh in
  intros H; vm_compute in H;
  repeat (destruct H as [H|H]; [discriminate H|]); exact H.

(** ** Sample inputs *)

(** Stand-ins for the two Unicode tables, enough to run the program on
    ASCII inputs: [str.lower] consults its table only for a string with a
    character outside ASCII, and the ASCII letters are the ASCII characters
    for which [str.isalpha] holds. *)
Definition sample_lower (s : pystr) : pystr := s.
Definition sample_isalpha (c : char) : bool :=
  (N.leb 65 c && N.leb c 90) || (N.leb 97 c && N.leb c 122).

Definition decode_error : exn :=
  {| exn_cls := UnicodeDecodeError;
     exn_str := lit "'utf-8' codec can't decode byte 0xff in position 0: invalid start byte" |}.

Definition is_a_directory : exn :=
  {| exn_cls := OtherError (lit "IsADirectoryError");
     exn_str := lit "[Errno 21] Is a directory: 'odd/pipe'" |}.

(** A repository [repo] holding [main.go], [a.txt], [node_modules/skip.js],
    [sub/b.bin] and [sub/c.js]; [sub/b.bin] is not valid UTF-8. *)
Definition sample_tree : node :=
  Dir (Some [ (lit "main.go", File);
              (lit "a.txt", File);
              (lit "node_modules", Dir (Some [(lit "skip.js", File)]));
              (lit "sub", Dir (Some [(lit "b.bin", File);
                                     (lit "c.js", File)])) ]).

Definition sample_fs : filesystem :=
  {| resolve := fun p =>
       if str_eqb p (lit "repo") then Some sample_tree
       else if str_eqb p (lit "empty") then Some (Dir (Some []))
       else None;
     read_text := fun p =>
       if str_eqb p (lit "repo/main.go") then Ok (lit "aabbcc")
       else if str_eqb p (lit "repo/a.txt") then Ok (lit "aab")
       else if str_eqb p (lit "repo/node_modules/skip.js") then Ok (lit "xyz")
       else if str_eqb p (lit "repo/sub/b.bin") then Raise decode_error
       else if str_eqb p (lit "repo/sub/c.js") then Ok (lit "a;")
       else Raise is_a_directory |}.

(** A repository [odd] in which the read of [odd/pipe] fails with an
    error that is none of the three. *)
Definition sample_fs_fatal : filesystem :=
  {| resolve := fun p =>
       if str_eqb p (lit "odd")
       then Some (Dir (Some [ (lit "main.go", File); (lit "pipe", File);
                              (lit "z.py", File) ]))
       else None;
     read_text := fun p =>
       if str_eqb p (lit "odd/main.go") then Ok (lit "aabbcc")
       else if str_eqb p (lit "odd/z.py") then Ok (lit "pass")
       else Raise is_a_directory |}.

(** [sample_fs] with a file [repo/a.txt] that cannot be opened at all. *)
Definition sample_fs_locked : filesystem :=
  {| resolve := resolve sample_fs;
     read_text := fun p =>
       if str_eqb p (lit "repo/a.txt") then Raise is_a_directory
       else read_text sample_fs p |}.

(** The same repository checked out at [build/repo]. *)
Definition sample_fs_under_build : filesystem :=
  {| resolve := fun p =>
       if str_eqb p (lit "build/repo") then Some sample_tree else None;
     read_text := fun p => Ok (lit "text") |}.

Definition sample_options : options :=
  {| top_n := 50; show_spaces := true; save_csv := true;
     exclude_letters := false |}.

Definition sample_options_top0 : options :=
  {| top_n := 0; show_spaces := false; save_csv := true;
     exclude_letters := false |}.

Definition TAB : char := 9%N.

(** What the scan of [repo] returns. *)
Definition sample_scan : ScanResult :=
  {| char_count := [(97%N, 3); (98%N, 2); (99%N, 2); (59%N, 1)];
     file_count := 2;
     error_files := [(lit "repo/sub/b.bin", exn_str decode_error)] |}.

Section Program.

Set Default Proof Using "Type".

(** The Unicode tables behind [str.lower] on a string that is not pure
    ASCII and behind [str.isalpha]; they belong to the interpreter. *)
Variable unicode_lower : pystr -> pystr.
Variable isalpha : char -> bool.

(** [s.lower()] *)
Definition lower (s : pystr) : pystr :=
  if forallb is_ascii s then map ascii_tolower s else unicode_lower s.

Definition should_skip_file (filepath : pystr) : bool :=
  if str_in (lower (suffix filepath)) skip_extensions then true
  else if existsb (fun part => str_in part skip_dirs) (parts filepath)
  then true
  else false.

(** ** The scanner *)

(** The [except] clause of [scan_repo]. *)
Definition caught (e : exn) : bool :=
  match exn_cls e with
  | UnicodeDecodeError | PermissionError | FileNotFoundError => true
  | _ => false
  end.

(** One iteration of the inner loop, on the joined path. *)
Definition scan_file (fs : filesystem) (filepath : pystr) (st : ScanResult)
  : result ScanResult :=
  if should_skip_file filepath then Ok st
  else match read_text fs filepath with
       | Ok content =>
           Ok {| char_count := update (char_count st) content;
                 file_count := S (file_count st);
                 error_files := error_files st |}
       | Raise e =>
           if caught e then
             Ok {| char_count := char_count st;
                   file_count := file_count st;
                   error_files := error_files st ++ [(filepath, exn_str e)] |}
           else Raise e
       end.

(** The inner loop: [for file in files]. *)
Fixpoint scan_files (fs : filesystem) (root : pystr) (files : list pystr)
  (st : ScanResult) : result ScanResult :=
  match files with
  | [] => Ok st
  | file :: rest =>
      st' <- scan_file fs (path_join root file) st ;;
      scan_files fs root rest st'
  end.

(** The outer loop: [for root, _, files in os.walk(repo_path)]. *)
Fixpoint scan_walk (fs : filesystem) (w : list walk_entry) (st : ScanResult)
  : result ScanResult :=
  match w with
  | [] => Ok st
  | (root, _, files) :: w' =>
      st' <- scan_files fs root files st ;;
      scan_walk fs w' st'
  end.

Definition scan_repo (fs : filesystem) (repo_path : pystr)
  : result ScanResult :=
  scan_walk fs (os_walk fs repo_path) empty_scan.

(** ** The report *)

(** [count / total_chars] *)
Definition truediv (count total_chars : nat) : result PyFloat.float :=
  match total_chars with
  | O => Raise {| exn_cls := ZeroDivisionError;
                  exn_str := lit "division by zero" |}
  | _ => Ok (PyFloat.div_nat count total_chars)
  end.

Definition char_display (c : char) : pystr :=
  if isspace c then
    if N.eqb c SPACE then [QUOTE; c; QUOTE] else [BACKSLASH; c]
  else [c].

(** [f"{char_display:4} | {count:7,} | {percentage:6.2f}%"] *)
Definition row_line (r : row) : pystr :=
  PyFloat.ljust 4 (row_display r) ++ lit " | "
  ++ PyFloat.rjust 7 (PyFloat.commas (row_count r)) ++ lit " | "
  ++ PyFloat.rjust 6 (PyFloat.fixed2 (row_percentage r)) ++ lit "%".

(** The loop over [char_count.most_common()]; [res] and [out] are the
    rows appended and the lines printed so far. *)
Fixpoint rows_loop (o : options) (total_chars : nat)
  (items : list (char * nat)) (res : list row) (out : list pystr)
  : result (list row * list pystr) :=
  match items with
  | [] => Ok (res, out)
  | (c, count) :: rest =>
      if exclude_letters o && isalpha c then
        rows_loop o total_chars rest res out
      else if isspace c && negb (show_spaces o) then
        rows_loop o total_chars rest res out
      else
        q <- truediv count total_chars ;;
        let percentage := PyFloat.mul q (PyFloat.of_Z 100) in
        let r := {| row_display := char_display c;
                    row_count := count;
                    row_percentage := percentage |} in
        let res' := res ++ [r] in
        let out' := out ++ [row_line r] in
        if Z.geb (Z.of_nat (length res')) (top_n o) then Ok (res', out')
        else rows_loop o total_chars rest res' out'
  end.

Definition csv_header : list pystr :=
  [lit "Character"; lit "Count"; lit "Percentage"].

Definition csv_row (r : row) : list pystr :=
  [row_display r; PyFloat.str_nat (row_count r);
   PyFloat.repr (row_percentage r)].

(** [print_results]; [cwd] is what [Path.cwd()] returns.  The embedding has
    what the function computes and what it asks to be output: the lines
    given to [print] and the rows given to [csv.writer].  Whether the
    console and the file system accept them is outside of it, so that [Ok]
    reads: the function returns, provided that no call of [print], no
    [open] for writing and no [writerows] fails; such a failure would leave
    the function with its own exception. *)
Definition print_results (cwd : pystr) (cnt : Counter) (files : nat)
  (errors : list (pystr * pystr)) (o : options) : result report :=
  let total_chars := total cnt in
  let head :=
    [ NL :: lit "Processed " ++ PyFloat.str_nat files ++ lit " files";
      lit "Total characters: " ++ PyFloat.commas total_chars;
      NL :: lit "Top character frequencies:";
      lit "Char | Count | Percentage";
      repeat 45%N 30 ] in
  ro <- rows_loop o total_chars (most_common cnt) [] head ;;
  let (res, out) := ro in
  let csv_path := path_join cwd (lit "char_freqs.csv") in
  let out1 :=
    if save_csv o then out ++ [NL :: lit "Results saved to " ++ csv_path]
    else out in
  let out2 :=
    match errors with
    | [] => out1
    | _ => out1 ++ (NL :: lit "Files with errors:")
           :: map (fun fe => lit "- " ++ fst fe ++ lit ": " ++ snd fe) errors
    end in
  Ok {| stdout := out2;
        results := res;
        csv_file := if save_csv o
                    then Some (csv_path, csv_header :: map csv_row res)
                    else None |}.

(** [main] once [parse_args] has returned: [repo_path] is the positional
    argument and [o] holds [--top], [--show-spaces], [--save-csv] and
    [--exclude-letters].  As for [print_results], the lines printed before
    an exception are not kept, and a failure of an output call is outside
    the embedding: [Ok] reads as it does there. *)
Definition main (cwd : pystr) (fs : filesystem) (repo_path : pystr)
  (o : options) : result report :=
  let line := lit "Scanning repository: " ++ repo_path in
  r <- scan_repo fs repo_path ;;
  rep <- print_results cwd (char_count r) (file_count r) (error_files r) o ;;
  Ok {| stdout := line :: stdout rep;
        results := results rep;
        csv_file := csv_file rep |}.

(** ** Vocabulary of the statements *)

(** The keys of a Counter in insertion order. *)
Definition keys (cnt : Counter) : list char := map fst cnt.

(** No name in the tree has a slash, as in a real file system. *)
Fixpoint valid_names (n : node) : bool :=
  match n with
  | Dir (Some entries) =>
      (fix all (es : list (pystr * node)) : bool :=
         match es with
         | [] => true
         | (nm, child) :: es' =>
             negb (existsb (N.eqb SEP) nm) && valid_names child && all es'
         end) entries
  | _ => true
  end.

(** The shape of an extension: a dot, then one character at least, none of
    them a dot or a slash. *)
Definition plain_extension (x : pystr) : bool :=
  match x with
  | d :: r =>
      N.eqb d DOT && negb (Nat.eqb (length r) 0)
      && forallb (fun c => negb (N.eqb c DOT) && negb (N.eqb c SEP)) r
  | [] => false
  end.

(** Rows or items in descending order of count. *)
Definition descending {A} (count : A -> nat) (l : list A) : Prop :=
  StronglySorted (fun a b => count b <= count a) l.

(** The items of a given count, in order. *)
Definition with_count (n : nat) (l : list (char * nat)) : list (char * nat) :=
  filter (fun it => Nat.eqb (snd it) n) l.

(** The joined paths in the order the two loops meet them. *)
Definition discovered (w : list walk_entry) : list pystr :=
  flat_map (fun e => map (path_join (fst (fst e))) (snd e)) w.

(** The paths that pass the filter. *)
Definition eligible (paths : list pystr) : list pystr :=
  filter (fun p => negb (should_skip_file p)) paths.

Definition read_ok (fs : filesystem) (p : pystr) : bool :=
  match read_text fs p with
  | Ok _ => true
  | Raise _ => false
  end.

(** The contents of the paths that can be read, in order. *)
Definition contents (fs : filesystem) (paths : list pystr) : list pystr :=
  flat_map (fun p => match read_text fs p with
                     | Ok c => [c]
                     | Raise _ => []
                     end) paths.

(** The paths that cannot be read, each with the text of its exception. *)
Definition failures (fs : filesystem) (paths : list pystr)
  : list (pystr * pystr) :=
  flat_map (fun p => match read_text fs p with
                     | Ok _ => []
                     | Raise e => [(p, exn_str e)]
                     end) paths.

(** The first exception among the reads that the [except] clause does not
    name. *)
Fixpoint first_fatal (fs : filesystem) (paths : list pystr) : option exn :=
  match paths with
  | [] => None
  | p :: rest =>
      match read_text fs p with
      | Ok _ => first_fatal fs rest
      | Raise e => if caught e then first_fatal fs rest else Some e
      end
  end.

(** The tally of a list of contents merged one after the other. *)
Definition tally_of (cs : list pystr) : Counter := fold_left update cs [].

(** The loops of [scan_repo] over the joined paths. *)
Fixpoint scan_paths (fs : filesystem) (paths : list pystr) (st : ScanResult)
  : result ScanResult :=
  match paths with
  | [] => Ok st
  | p :: rest => st' <- scan_file fs p st ;; scan_paths fs rest st'
  end.

(** Equality of two Counters as dicts. *)
Definition dict_eq (a b : Counter) : Prop := forall c, get a c = get b c.

(** [cnt[c]], which is 0 for a missing key. *)
Definition count_of (cnt : Counter) (c : char) : nat :=
  match get cnt c with
  | Some v => v
  | None => 0
  end.

(** The reads of a list of paths raise nothing outside the [except]
    clause. *)
Definition all_caught (fs : filesystem) (paths : list pystr) : Prop :=
  Forall (fun p => match read_text fs p with
                   | Ok _ => True
                   | Raise e => caught e = true
                   end) paths.

(** A character that the loop of [print_results] does not pass over. *)
Definition qualifies (o : options) (c : char) : bool :=
  negb (exclude_letters o && isalpha c)
  && negb (isspace c && negb (show_spaces o)).

(** The items that get a row when [done] rows exist already: the first
    qualifying ones, as many as the room left under [top_n], and one at
    least. *)
Definition shown (o : options) (done : nat) (items : list (char * nat))
  : list (char * nat) :=
  firstn (Z.to_nat (Z.max 1 (top_n o - Z.of_nat done)))
         (filter (fun it => qualifies o (fst it)) items).

Definition percentage_of (total_chars count : nat) : PyFloat.float :=
  PyFloat.mul (PyFloat.div_nat count total_chars) (PyFloat.of_Z 100).

Definition make_row (total_chars : nat) (item : char * nat) : row :=
  {| row_display := char_display (fst item);
     row_count := snd item;
     row_percentage := percentage_of total_chars (snd item) |}.

(** A number written with exactly two fraction digits: digits, a dot, two
    digits. *)
Definition is_digit (c : char) : bool := N.leb 48 c && N.leb c 57.

Definition two_fraction_digits (s : pystr) : bool :=
  match rev s with
  | d2 :: d1 :: dot :: int_part =>
      is_digit d2 && is_digit d1 && N.eqb dot DOT
      && negb (Nat.eqb (length int_part) 0) && forallb is_digit int_part
  | _ => false
  end.

(** The lines printed before the rows and after them. *)
Definition summary_lines (cnt : Counter) (files : nat) : list pystr :=
  [ NL :: lit "Processed " ++ PyFloat.str_nat files ++ lit " files";
    lit "Total characters: " ++ PyFloat.commas (total cnt);
    NL :: lit "Top character frequencies:";
    lit "Char | Count | Percentage";
    repeat 45%N 30 ].

Definition closing_lines (cwd : pystr) (errors : list (pystr * pystr))
  (o : options) : list pystr :=
  (if save_csv o
   then [NL :: lit "Results saved to " ++ path_join cwd (lit "char_freqs.csv")]
   else [])
  ++ match errors with
     | [] => []
     | _ => (NL :: lit "Files with errors:")
            :: map (fun fe => lit "- " ++ fst fe ++ lit ": " ++ snd fe) errors
     end.

(** The rows handed to [csv.writer], none when nothing is written. *)
Definition csv_rows (r : result report) : list (list pystr) :=
  match r with
  | Ok rep => match csv_file rep with
              | Some (_, rows) => rows
              | None => []
              end
  | Raise _ => []
  end.

(** * Properties *)


(** ** Strings and paths *)

Lemma str_eqb_eq (a b : pystr) : str_eqb a b = true <-> a = b.
Proof.
  revert b; induction a as [|x a IH]; intros [|y b]; simpl;
    try (split; congruence).
  rewrite andb_true_iff, N.eqb_eq, IH. split.
  - intros [-> ->]; reflexivity.
  - intros H; injection H; auto.
Qed.

Lemma str_in_In (s : pystr) (set : list pystr) :
  str_in s set = true <-> In s set.
Proof.
  unfold str_in. rewrite existsb_exists. split.
  - intros [x [Hx He]]. apply str_eqb_eq in He. subst; assumption.
  - intros H. exists s. split; [assumption | now apply str_eqb_eq].
Qed.

Lemma split_nonempty (sep : char) (s : pystr) : split sep s <> [].
Proof.
  destruct s as [|c s]; simpl; [discriminate|].
  destruct (N.eqb c sep); [discriminate|].
  destruct (split sep s); discriminate.
Qed.

(** Splitting distributes over a separator. *)
Lemma split_app (sep : char) (a b : pystr) :
  split sep (a ++ sep :: b) = split sep a ++ split sep b.
Proof.
  induction a as [|c a IH]; simpl.
  - rewrite N.eqb_refl. reflexivity.
  - destruct (N.eqb c sep); [now rewrite IH|].
    rewrite IH. pose proof (split_nonempty sep a) as Hne.
    destruct (split sep a); [contradiction | reflexivity].
Qed.

Lemma split_no_sep (sep : char) (s : pystr) :
  ~ In sep s -> split sep s = [s].
Proof.
  induction s as [|c s IH]; simpl; intros H; [reflexivity|].
  destruct (N.eqb_spec c sep) as [->|_].
  - exfalso. apply H. now left.
  - rewrite IH; [reflexivity|]. intros Hin. apply H. now right.
Qed.

Lemma split_lstrip (sep : char) (s x : pystr) :
  x <> [] -> In x (split sep s) -> In x (split sep (lstrip sep s)).
Proof.
  intros Hx. induction s as [|c s IH]; simpl; [exact (fun H => H)|].
  destruct (N.eqb c sep) eqn:E.
  - intros [H|H]; [congruence | auto].
  - simpl. rewrite E. exact (fun H => H).
Qed.

(** A non-empty component other than ['.'] is one of the parts. *)
Lemma component_in_parts (p x : pystr) :
  x <> [] -> x <> [DOT] -> In x (split SEP p) -> In x (parts p).
Proof.
  intros H0 H1 Hin.
  assert (Ht : In x (path_tail p)).
  { unfold path_tail. apply filter_In. split.
    - now apply split_lstrip.
    - apply andb_true_iff. split; apply negb_true_iff;
        apply not_true_is_false; rewrite str_eqb_eq; assumption. }
  unfold parts. destruct (path_root p); [assumption | now right].
Qed.

Lemma skip_dirs_plain :
  Forall (fun d => d <> [] /\ d <> [DOT] /\ ~ In SEP d) skip_dirs.
Proof.
  repeat constructor; try discriminate;
    (intros H; simpl in H; unfold SEP in H;
     repeat (destruct H as [H|H]; [discriminate H|]); exact H).
Qed.

Lemma dir_rule_In (p : pystr) :
  existsb (fun part => str_in part skip_dirs) (parts p) = true <->
  exists part, In part (parts p) /\ In part skip_dirs.
Proof.
  rewrite existsb_exists.
  split; intros [x [H1 H2]]; exists x; split; try assumption;
    now apply str_in_In.
Qed.

Lemma skipped_by_dir (p d : pystr) :
  In d skip_dirs -> In d (parts p) -> should_skip_file p = true.
Proof.
  intros Hd Hp. unfold should_skip_file.
  destruct (str_in (lower (suffix p)) skip_extensions); [reflexivity|].
  assert (E : existsb (fun part => str_in part skip_dirs) (parts p) = true)
    by (apply dir_rule_In; eauto).
  now rewrite E.
Qed.

Lemma node_modules_skip_dir : In (lit "node_modules") skip_dirs.
Proof. left. reflexivity. Qed.

(** ** The scanner *)

Lemma scan_paths_app (fs : filesystem) (l1 l2 : list pystr) (st : ScanResult) :
  scan_paths fs (l1 ++ l2) st
  = (st' <- scan_paths fs l1 st ;; scan_paths fs l2 st').
Proof.
  revert st; induction l1 as [|p l1 IH]; intros st; simpl; [reflexivity|].
  destruct (scan_file fs p st); simpl; [apply IH | reflexivity].
Qed.

Lemma scan_files_paths (fs : filesystem) (root : pystr) (files : list pystr)
  (st : ScanResult) :
  scan_files fs root files st = scan_paths fs (map (path_join root) files) st.
Proof.
  revert st; induction files as [|f files IH]; intros st; simpl;
    [reflexivity|].
  destruct (scan_file fs (path_join root f) st); simpl;
    [apply IH | reflexivity].
Qed.

(** The two nested loops are one loop over the discovered paths. *)
Lemma scan_walk_paths (fs : filesystem) (w : list walk_entry)
  (st : ScanResult) :
  scan_walk fs w st = scan_paths fs (discovered w) st.
Proof.
  revert st; induction w as [|[[root dirs] files] w IH]; intros st; simpl;
    [reflexivity|].
  rewrite scan_paths_app, scan_files_paths.
  destruct (scan_paths fs (map (path_join root) files) st); simpl;
    [apply IH | reflexivity].
Qed.

(** What the loop returns from any state: the first exception outside the
    [except] clause if there is one, and otherwise the state extended by
    the contents read and by the failures met. *)
Lemma scan_paths_spec (fs : filesystem) (paths : list pystr)
  (st : ScanResult) :
  scan_paths fs paths st =
  match first_fatal fs (eligible paths) with
  | Some e => Raise e
  | None =>
      Ok {| char_count :=
              fold_left update (contents fs (eligible paths)) (char_count st);
            file_count :=
              file_count st + length (contents fs (eligible paths));
            error_files :=
              error_files st ++ failures fs (eligible paths) |}
  end.
Proof.
  revert st; induction paths as [|p paths IH]; intros st; simpl.
  - rewrite Nat.add_0_r, app_nil_r. now destruct st.
  - unfold scan_file, eligible; simpl.
    destruct (should_skip_file p); simpl; [apply IH|].
    unfold contents, failures; simpl.
    destruct (read_text fs p) as [c|e]; simpl.
    + rewrite IH; simpl. fold (eligible paths).
      destruct (first_fatal fs (eligible paths)); [reflexivity|].
      unfold contents, failures. now rewrite Nat.add_succ_r.
    + destruct (caught e); simpl; [|reflexivity].
      rewrite IH; simpl. fold (eligible paths).
      destruct (first_fatal fs (eligible paths)); [reflexivity|].
      unfold contents, failures. now rewrite <- app_assoc.
Qed.

(** [scan_repo] in one equation. *)
Lemma scan_repo_spec (fs : filesystem) (repo_path : pystr) :
  scan_repo fs repo_path =
  let paths := eligible (discovered (os_walk fs repo_path)) in
  match first_fatal fs paths with
  | Some e => Raise e
  | None => Ok {| char_count := tally_of (contents fs paths);
                  file_count := length (contents fs paths);
                  error_files := failures fs paths |}
  end.
Proof.
  unfold scan_repo. rewrite scan_walk_paths, scan_paths_spec. reflexivity.
Qed.

Lemma contents_length (fs : filesystem) (l : list pystr) :
  length (contents fs l) = length (filter (read_ok fs) l).
Proof.
  unfold contents, read_ok.
  induction l as [|p l IH]; simpl; [reflexivity|].
  destruct (read_text fs p); simpl; now rewrite IH.
Qed.

Lemma contents_failures_length (fs : filesystem) (l : list pystr) :
  length (contents fs l) + length (failures fs l) = length l.
Proof.
  unfold contents, failures.
  induction l as [|p l IH]; simpl; [reflexivity|].
  destruct (read_text fs p); simpl; rewrite <- IH;
    [reflexivity | now rewrite Nat.add_succ_r].
Qed.

Lemma failures_In (fs : filesystem) (l : list pystr) (p : pystr) :
  In p (map fst (failures fs l)) -> In p l /\ read_ok fs p = false.
Proof.
  unfold failures, read_ok.
  induction l as [|x l IH]; simpl; [intros []|].
  destruct (read_text fs x) eqn:E; simpl.
  - intros H. destruct (IH H) as [H1 H2]. split; [now right | exact H2].
  - intros [<-|H].
    + split; [now left | now rewrite E].
    + destruct (IH H) as [H1 H2]. split; [now right | exact H2].
Qed.

(** C1. When [scan_repo] returns, [file_count] is the number of paths that
    passed the filter and were read, [file_count] and the length of the
    error list add up to the number of paths that passed the filter, and
    every path of the error list passed the filter, failed to be read and
    is none of the paths counted. *)
Theorem scan_repo_counts (fs : filesystem) (repo_path : pystr)
  (r : ScanResult) :
  scan_repo fs repo_path = Ok r ->
  let passed := eligible (discovered (os_walk fs repo_path)) in
  let merged := filter (read_ok fs) passed in
  file_count r = length merged /\
  file_count r + length (error_files r) = length passed /\
  (forall p, In p (map fst (error_files r)) ->
     In p passed /\ read_ok fs p = false /\ ~ In p merged).
Proof.
  rewrite scan_repo_spec. cbv zeta.
  destruct (first_fatal fs _); [discriminate|].
  intros H; injection H as <-; simpl.
  split; [apply contents_length|].
  split; [apply contents_failures_length|].
  intros p Hp. apply failures_In in Hp. destruct Hp as [H1 H2].
  split; [exact H1|]. split; [exact H2|].
  intros Hm. apply filter_In in Hm. destruct Hm as [_ Hm]. congruence.
Qed.

(** ** The tally *)

Lemma total_incr (c : char) (cnt : Counter) :
  total (incr c cnt) = S (total cnt).
Proof.
  unfold total. induction cnt as [|[k v] cnt IH]; simpl; [reflexivity|].
  destruct (N.eqb k c); simpl; [reflexivity|].
  rewrite IH. now rewrite Nat.add_succ_r.
Qed.

Lemma total_update (cnt : Counter) (s : pystr) :
  total (update cnt s) = total cnt + length s.
Proof.
  unfold update. revert cnt; induction s as [|c s IH]; intros cnt; simpl.
  - now rewrite Nat.add_0_r.
  - rewrite IH, total_incr. now rewrite Nat.add_succ_r.
Qed.

Lemma total_fold_update (cs : list pystr) (cnt : Counter) :
  total (fold_left update cs cnt)
  = total cnt + list_sum (map (@length char) cs).
Proof.
  revert cnt; induction cs as [|s cs IH]; intros cnt; simpl.
  - now rewrite Nat.add_0_r.
  - rewrite IH, total_update. now rewrite Nat.add_assoc.
Qed.

(** C6. When [scan_repo] returns, the counts of its tally add up to the
    sum of the lengths of the contents of the files that passed the filter
    and were read. *)
Theorem scan_repo_total (fs : filesystem) (repo_path : pystr)
  (r : ScanResult) :
  scan_repo fs repo_path = Ok r ->
  total (char_count r)
  = list_sum (map (@length char)
                (contents fs (eligible (discovered (os_walk fs repo_path))))).
Proof.
  rewrite scan_repo_spec. cbv zeta.
  destruct (first_fatal fs _); [discriminate|].
  intros H; injection H as <-; simpl.
  unfold tally_of. now rewrite total_fold_update.
Qed.

Lemma get_incr (x c : char) (cnt : Counter) :
  get (incr x cnt) c
  = if N.eqb x c then Some (S (count_of cnt c)) else get cnt c.
Proof.
  unfold count_of. induction cnt as [|[k v] cnt IH]; simpl.
  - now destruct (N.eqb x c).
  - destruct (N.eqb_spec k x) as [->|Hkx]; simpl.
    + now destruct (N.eqb x c).
    + destruct (N.eqb_spec k c) as [->|Hkc].
      * destruct (N.eqb_spec x c); [congruence | reflexivity].
      * exact IH.
Qed.

(** The count of a character after a merge: untouched when the content
    does not have the character, and otherwise the old count, or 0, plus
    its number of occurrences. *)
Lemma get_update (cnt : Counter) (s : pystr) (c : char) :
  get (update cnt s) c
  = match count_occ N.eq_dec s c with
    | O => get cnt c
    | n => Some (count_of cnt c + n)
    end.
Proof.
  unfold update. revert cnt; induction s as [|x s IH]; intros cnt; simpl;
    [reflexivity|].
  rewrite IH. unfold count_of at 1. rewrite get_incr.
  destruct (N.eq_dec x c) as [->|Hn].
  - rewrite N.eqb_refl.
    destruct (count_occ N.eq_dec s c); f_equal; lia.
  - destruct (N.eqb_spec x c); [contradiction|].
    reflexivity.
Qed.

Lemma count_of_update (cnt : Counter) (s : pystr) (c : char) :
  count_of (update cnt s) c = count_of cnt c + count_occ N.eq_dec s c.
Proof.
  unfold count_of at 1. rewrite get_update.
  destruct (count_occ N.eq_dec s c); [|reflexivity].
  unfold count_of. now rewrite Nat.add_0_r.
Qed.

Lemma update_app (cnt : Counter) (a b : pystr) :
  update cnt (a ++ b) = update (update cnt a) b.
Proof. unfold update. apply fold_left_app. Qed.

Lemma tally_of_concat (cs : list pystr) (cnt : Counter) :
  fold_left update cs cnt = update cnt (concat cs).
Proof.
  revert cnt; induction cs as [|s cs IH]; intros cnt; simpl; [reflexivity|].
  now rewrite IH, update_app.
Qed.

Lemma flat_map_perm {A B} (f : A -> list B) (l1 l2 : list A) :
  Permutation l1 l2 -> Permutation (flat_map f l1) (flat_map f l2).
Proof.
  induction 1 as [|x l1 l2 _ IH|x y l|l1 l2 l3 _ IH1 _ IH2]; simpl.
  - constructor.
  - now apply Permutation_app_head.
  - rewrite !app_assoc. apply Permutation_app_tail, Permutation_app_comm.
  - now transitivity (flat_map f l2).
Qed.

Lemma filter_perm {A} (f : A -> bool) (l1 l2 : list A) :
  Permutation l1 l2 -> Permutation (filter f l1) (filter f l2).
Proof.
  induction 1 as [|x l1 l2 _ IH|x y l|l1 l2 l3 _ IH1 _ IH2]; simpl.
  - constructor.
  - destruct (f x); [now constructor | assumption].
  - destruct (f x), (f y); try reflexivity. constructor.
  - now transitivity (filter f l2).
Qed.

(** Tallies of the same contents in two orders are equal dicts. *)
Lemma tally_of_perm (cs1 cs2 : list pystr) :
  Permutation cs1 cs2 -> dict_eq (tally_of cs1) (tally_of cs2).
Proof.
  intros HP c. unfold tally_of. rewrite !tally_of_concat, !get_update.
  assert (E : count_occ N.eq_dec (concat cs1) c
              = count_occ N.eq_dec (concat cs2) c).
  { apply Permutation_count_occ.
    apply (flat_map_perm (fun s : pystr => s)) in HP.
    rewrite !flat_map_concat_map, !map_id in HP. exact HP. }
  now rewrite E.
Qed.

Lemma first_fatal_none (fs : filesystem) (l : list pystr) :
  first_fatal fs l = None <-> all_caught fs l.
Proof.
  unfold all_caught. induction l as [|p l IH]; simpl.
  - split; [constructor | reflexivity].
  - rewrite Forall_cons_iff.
    destruct (read_text fs p) as [c|e].
    + rewrite IH. split; [now split | now intros [_ H]].
    + destruct (caught e) eqn:E.
      * rewrite IH. split; [now split | now intros [_ H]].
      * split; [discriminate | intros [H _]; discriminate].
Qed.

Lemma first_fatal_some (fs : filesystem) (l : list pystr) (e : exn) :
  first_fatal fs l = Some e ->
  caught e = false /\ exists p, In p l /\ read_text fs p = Raise e.
Proof.
  induction l as [|p l IH]; simpl; [discriminate|].
  destruct (read_text fs p) as [c|e0] eqn:R.
  - intros H. destruct (IH H) as [H1 [q [H2 H3]]]. eauto.
  - destruct (caught e0) eqn:E.
    + intros H. destruct (IH H) as [H1 [q [H2 H3]]]. eauto.
    + intros H; injection H as <-. eauto.
Qed.

Lemma merge_commutes (cnt : Counter) (s1 s2 : pystr) :
  dict_eq (update (update cnt s1) s2) (update (update cnt s2) s1).
Proof.
  intros c. rewrite !get_update, !count_of_update.
  destruct (count_occ N.eq_dec s1 c), (count_occ N.eq_dec s2 c);
    try reflexivity; f_equal; lia.
Qed.

(** C7. The merge of two contents into a tally gives the same dict in
    either order; and two walks that meet the same eligible paths in two
    orders end, when the first returns, with equal tallies and the same
    [file_count]. *)
Theorem scan_order_independent (fs : filesystem) (w1 w2 : list walk_entry)
  (r1 : ScanResult) :
  Permutation (eligible (discovered w1)) (eligible (discovered w2)) ->
  scan_walk fs w1 empty_scan = Ok r1 ->
  (exists r2, scan_walk fs w2 empty_scan = Ok r2 /\
              dict_eq (char_count r1) (char_count r2) /\
              file_count r1 = file_count r2) /\
  (forall cnt s1 s2,
     dict_eq (update (update cnt s1) s2) (update (update cnt s2) s1)).
Proof.
  intros HP H1. split; [|exact merge_commutes].
  rewrite scan_walk_paths, scan_paths_spec in H1.
  rewrite scan_walk_paths, scan_paths_spec.
  destruct (first_fatal fs (eligible (discovered w1))) eqn:F1;
    [discriminate|].
  injection H1 as <-.
  apply first_fatal_none in F1.
  assert (F2 : first_fatal fs (eligible (discovered w2)) = None).
  { apply first_fatal_none. unfold all_caught in *.
    eapply Permutation_Forall; eassumption. }
  rewrite F2. eexists. split; [reflexivity|]. simpl.
  assert (HC : Permutation (contents fs (eligible (discovered w1)))
                           (contents fs (eligible (discovered w2))))
    by (apply flat_map_perm; exact HP).
  split; [exact (tally_of_perm HC) | now apply Permutation_length].
Qed.

(** C8. When nothing is at the root path, [scan_repo] raises nothing and
    returns an empty tally, a [file_count] of 0 and an empty error list,
    which is also what it returns for a root that is an empty directory. *)
Theorem scan_repo_missing_root (fs : filesystem) (repo_path : pystr) :
  resolve fs repo_path = None ->
  scan_repo fs repo_path = Ok empty_scan /\
  (forall fs' dir, resolve fs' dir = Some (Dir (Some [])) ->
     scan_repo fs' dir = scan_repo fs repo_path).
Proof.
  intros H.
  assert (E : scan_repo fs repo_path = Ok empty_scan)
    by (unfold scan_repo, os_walk; now rewrite H).
  split; [exact E|].
  intros fs' dir H'. rewrite E.
  unfold scan_repo, os_walk. now rewrite H'.
Qed.

(** C2. The [except] clause names exactly the decode, permission and
    not-found errors.  On a path that passes the filter and whose read
    raises, one iteration appends the path and the text of the exception to
    the error list and leaves tally and [file_count] as they were when the
    exception is one of the three, and raises it otherwise.  So the whole
    scan raises the first exception that is none of the three, whenever a
    read of a passing path raises one; and otherwise it returns the tally
    and the number of the contents read, with every failure in the error
    list in the order of discovery. *)
Theorem scan_repo_failures (fs : filesystem) (repo_path : pystr) :
  let passed := eligible (discovered (os_walk fs repo_path)) in
  (forall e, caught e = true <->
     exn_cls e = UnicodeDecodeError \/ exn_cls e = PermissionError \/
     exn_cls e = FileNotFoundError) /\
  (forall p st e, should_skip_file p = false -> read_text fs p = Raise e ->
     scan_file fs p st =
     if caught e
     then Ok {| char_count := char_count st;
                file_count := file_count st;
                error_files := error_files st ++ [(p, exn_str e)] |}
     else Raise e) /\
  (forall p e, In p passed -> read_text fs p = Raise e -> caught e = false ->
     exists e', scan_repo fs repo_path = Raise e' /\ caught e' = false) /\
  match first_fatal fs passed with
  | Some e => scan_repo fs repo_path = Raise e /\ caught e = false
  | None =>
      scan_repo fs repo_path =
      Ok {| char_count := tally_of (contents fs passed);
            file_count := length (contents fs passed);
            error_files := failures fs passed |}
  end.
Proof.
  cbv zeta. split; [|split; [|split]].
  - intros e. unfold caught.
    destruct (exn_cls e); split; intros H; try reflexivity;
      try discriminate; auto;
      destruct H as [H|[H|H]]; discriminate.
  - intros p st e Hs Hr. unfold scan_file. now rewrite Hs, Hr.
  - intros p e Hin Hr Hc. rewrite scan_repo_spec. cbv zeta.
    destruct (first_fatal fs _) as [e'|] eqn:F.
    + exists e'. split; [reflexivity|].
      now apply first_fatal_some in F.
    + apply first_fatal_none in F. unfold all_caught in F.
      rewrite Forall_forall in F. specialize (F p Hin).
      rewrite Hr in F. congruence.
  - rewrite scan_repo_spec. cbv zeta.
    destruct (first_fatal fs _) as [e'|] eqn:F; [|reflexivity].
    split; [reflexivity|]. now apply first_fatal_some in F.
Qed.

(** ** The report *)

(** What the loop appends when it returns: a row for each item of
    [shown]. *)
Lemma rows_loop_spec (o : options) (total_chars : nat)
  (items : list (char * nat)) (res res' : list row) (out out' : list pystr) :
  rows_loop o total_chars items res out = Ok (res', out') ->
  res' = res ++ map (make_row total_chars) (shown o (length res) items) /\
  out' = out ++ map row_line
                    (map (make_row total_chars) (shown o (length res) items)).
Proof.
  unfold shown.
  revert res out; induction items as [|[c n] items IH]; intros res out.
  - cbn [rows_loop filter]. rewrite firstn_nil. cbn [map].
    rewrite !app_nil_r. intros H; injection H as <- <-. now split.
  - cbn [rows_loop filter fst].
    change (qualifies o c)
      with (negb (exclude_letters o && isalpha c)
            && negb (isspace c && negb (show_spaces o))).
    destruct (exclude_letters o && isalpha c); cbn [negb andb]; [apply IH|].
    destruct (isspace c && negb (show_spaces o)); cbn [negb andb];
      [apply IH|].
    unfold truediv. destruct total_chars as [|t]; cbn [bind]; [discriminate|].
    change {| row_display := char_display c;
              row_count := n;
              row_percentage :=
                PyFloat.mul (PyFloat.div_nat n (S t)) (PyFloat.of_Z 100) |}
      with (make_row (S t) (c, n)).
    rewrite length_app. cbn [length].
    destruct (Z.geb_spec (Z.of_nat (length res + 1)) (top_n o)) as [Hge|Hlt].
    + intros H; injection H as <- <-.
      replace (Z.max 1 (top_n o - Z.of_nat (length res))) with 1%Z by lia.
      change (Z.to_nat 1) with 1. cbn [firstn map]. now split.
    + intros H. apply IH in H. rewrite length_app in H. cbn [length] in H.
      replace (Z.to_nat (Z.max 1 (top_n o - Z.of_nat (length res))))
        with (S (Z.to_nat (Z.max 1 (top_n o - Z.of_nat (length res + 1)))))
        by lia.
      cbn [firstn map]. rewrite <- !app_assoc in H. exact H.
Qed.

(** The loop raises nothing when the denominator is not zero. *)
Lemma rows_loop_ok (o : options) (total_chars : nat)
  (items : list (char * nat)) (res : list row) (out : list pystr) :
  total_chars <> 0 -> exists ro, rows_loop o total_chars items res out = Ok ro.
Proof.
  intros Ht.
  revert res out; induction items as [|[c n] items IH]; intros res out; simpl.
  - eauto.
  - destruct (exclude_letters o && isalpha c); [apply IH|].
    destruct (isspace c && negb (show_spaces o)); [apply IH|].
    unfold truediv. destruct total_chars; [contradiction|]. simpl.
    destruct (Z.geb _ (top_n o)); [eauto | apply IH].
Qed.

(** The rows, the lines and the file of a report that is returned. *)
Lemma results_spec (cwd : pystr) (cnt : Counter) (files : nat)
  (errors : list (pystr * pystr)) (o : options) (rep : report) :
  print_results cwd cnt files errors o = Ok rep ->
  results rep = map (make_row (total cnt)) (shown o 0 (most_common cnt)) /\
  csv_file rep =
  (if save_csv o
   then Some (path_join cwd (lit "char_freqs.csv"),
              csv_header :: map csv_row (results rep))
   else None) /\
  stdout rep = summary_lines cnt files ++ map row_line (results rep)
               ++ closing_lines cwd errors o.
Proof.
  unfold print_results. fold (summary_lines cnt files).
  destruct (rows_loop o (total cnt) (most_common cnt) [] _)
    as [[res out]|e] eqn:E; cbn [bind]; [|discriminate].
  intros H; injection H as <-. cbn [results csv_file stdout].
  apply rows_loop_spec in E. destruct E as [E1 E2].
  cbn [app length] in E1, E2.
  split; [exact E1|]. split; [reflexivity|].
  rewrite E2, <- E1. unfold closing_lines.
  destruct (save_csv o), errors; cbn [app];
    rewrite <- ?app_assoc, ?app_nil_r; reflexivity.
Qed.

Lemma incr_positive (c : char) (cnt : Counter) :
  Forall (fun kv => 0 < snd kv) cnt ->
  Forall (fun kv => 0 < snd kv) (incr c cnt).
Proof.
  induction 1 as [|[k v] cnt Hv Hall IH]; simpl.
  - repeat constructor.
  - destruct (N.eqb k c); constructor; simpl in *;
      try assumption; apply Nat.lt_0_succ.
Qed.

Lemma update_positive (s : pystr) (cnt : Counter) :
  Forall (fun kv => 0 < snd kv) cnt ->
  Forall (fun kv => 0 < snd kv) (update cnt s).
Proof.
  unfold update. revert cnt; induction s as [|c s IH]; intros cnt H; simpl;
    [assumption|].
  apply IH, incr_positive, H.
Qed.

Lemma total_positive (cnt : Counter) :
  Forall (fun kv => 0 < snd kv) cnt -> cnt <> [] -> 0 < total cnt.
Proof.
  unfold total. destruct 1 as [|[k v] cnt Hv _]; [congruence|].
  intros _. simpl in *. lia.
Qed.

(** Every count of the tally that [scan_repo] returns is positive. *)
Lemma scan_repo_positive (fs : filesystem) (repo_path : pystr)
  (r : ScanResult) :
  scan_repo fs repo_path = Ok r ->
  Forall (fun kv => 0 < snd kv) (char_count r).
Proof.
  rewrite scan_repo_spec. cbv zeta.
  destruct (first_fatal fs _); [discriminate|].
  intros H; injection H as <-; simpl.
  unfold tally_of. rewrite tally_of_concat.
  apply update_positive. constructor.
Qed.

(** C10. For the result of a scan, [print_results] raises nothing, and so
    no [ZeroDivisionError]: a tally that is not empty has a positive
    total, and with a total of 0 the loop has no entry to divide for, so
    that [results] stays empty and the lines printed are the summary and
    the closing ones. *)
Theorem print_results_no_zero_division (fs : filesystem)
  (repo_path cwd : pystr) (o : options) (r : ScanResult) :
  scan_repo fs repo_path = Ok r ->
  (char_count r <> [] -> 0 < total (char_count r)) /\
  exists rep,
    print_results cwd (char_count r) (file_count r) (error_files r) o
    = Ok rep /\
    (total (char_count r) = 0 ->
     results rep = [] /\
     stdout rep = summary_lines (char_count r) (file_count r)
                  ++ closing_lines cwd (error_files r) o).
Proof.
  intros H. pose proof (scan_repo_positive _ _ H) as Hpos.
  split; [now apply total_positive|].
  assert (Hex : exists rep,
             print_results cwd (char_count r) (file_count r) (error_files r) o
             = Ok rep).
  { unfold print_results.
    destruct (Nat.eq_dec (total (char_count r)) 0) as [Hz|Hnz].
    - destruct (char_count r) as [|kv cnt] eqn:Ec.
      + simpl. eauto.
      + assert (0 < total (kv :: cnt)) by (apply total_positive; congruence).
        lia.
    - fold (summary_lines (char_count r) (file_count r)).
      destruct (rows_loop_ok o (most_common (char_count r)) []
                  (summary_lines (char_count r) (file_count r)) Hnz)
        as [[res out] E].
      rewrite E. simpl. eauto. }
  destruct Hex as [rep Hrep]. exists rep. split; [exact Hrep|].
  intros Hz. apply results_spec in Hrep. destruct Hrep as [E [_ Eo]].
  assert (En : results rep = []).
  { rewrite E. destruct (char_count r) as [|kv cnt] eqn:Ec.
    - unfold shown. cbn [most_common fold_right filter].
      now rewrite firstn_nil.
    - assert (0 < total (kv :: cnt)) by (apply total_positive; congruence).
      lia. }
  split; [exact En|]. rewrite Eo, En. reflexivity.
Qed.

Lemma insert_desc_In (x y : char * nat) (l : list (char * nat)) :
  In x (insert_desc y l) -> x = y \/ In x l.
Proof.
  induction l as [|z l IH]; simpl.
  - intros [H|[]]; auto.
  - destruct (Nat.ltb (snd y) (snd z)); simpl.
    + intros [H|H]; [auto|]. destruct (IH H); auto.
    + intros [H|[H|H]]; auto.
Qed.

Lemma most_common_In (x : char * nat) (cnt : Counter) :
  In x (most_common cnt) -> In x cnt.
Proof.
  unfold most_common. induction cnt as [|y cnt IH]; simpl; [exact (fun H => H)|].
  intros H. apply insert_desc_In in H. destruct H as [H|H]; auto.
Qed.

Lemma shown_In (o : options) (done : nat) (items : list (char * nat))
  (x : char * nat) :
  In x (shown o done items) -> In x items /\ qualifies o (fst x) = true.
Proof.
  unfold shown. intros H.
  apply (filter_In (fun it => qualifies o (fst it))).
  rewrite <- (firstn_skipn (Z.to_nat (Z.max 1 (top_n o - Z.of_nat done)))).
  apply in_or_app. now left.
Qed.

(** X10. The number of rows: as many as the qualifying characters, but no
    more than [top_n], or than 1 when [top_n] is below 1. *)
Lemma results_length (cwd : pystr) (cnt : Counter) (files : nat)
  (errors : list (pystr * pystr)) (o : options) (rep : report) :
  print_results cwd cnt files errors o = Ok rep ->
  length (results rep)
  = Nat.min (Z.to_nat (Z.max 1 (top_n o)))
            (length (filter (fun it => qualifies o (fst it))
                            (most_common cnt))).
Proof.
  intros H. apply results_spec in H. destruct H as [-> _].
  unfold shown. rewrite length_map, length_firstn.
  now rewrite Z.sub_0_r.
Qed.

(** C9. Every row of a report shows a qualifying character of the tally
    in its display form.  The display form of a whitespace character wraps
    the raw character: the space stands between two quotes and any other
    whitespace character follows a backslash.  So the form is never the bare
    character, and the raw character is always in it. *)
Theorem whitespace_display (cwd : pystr) (cnt : Counter) (files : nat)
  (errors : list (pystr * pystr)) (o : options) (rep : report) :
  print_results cwd cnt files errors o = Ok rep ->
  (forall r, In r (results rep) ->
     exists c, In (c, row_count r) cnt /\ qualifies o c = true /\
               row_display r = char_display c) /\
  (forall c, isspace c = true ->
     char_display c
     = (if N.eqb c SPACE then [QUOTE; SPACE; QUOTE] else [BACKSLASH; c]) /\
     In c (char_display c) /\ char_display c <> [c]).
Proof.
  intros H. split.
  - intros r Hr. apply results_spec in H. destruct H as [E _].
    rewrite E in Hr. apply in_map_iff in Hr.
    destruct Hr as [[c n] [<- Hx]]. apply shown_In in Hx.
    destruct Hx as [Hx Hq]. apply most_common_In in Hx.
    exists c. simpl. auto.
  - intros c Hc. unfold char_display. rewrite Hc.
    destruct (N.eqb_spec c SPACE) as [->|Hn].
    + split; [reflexivity|]. split; [right; now left | discriminate].
    + split; [reflexivity|]. split; [right; now left | discriminate].
Qed.

(** C4. With [save_csv] on, a report that is returned writes to
    [char_freqs.csv] joined to the working directory: first the header
    [Character], [Count], [Percentage], then one row for each row of the
    report, in order.  The third field of such a row is the text that [str]
    gives the float [(count / total_chars) * 100], the shortest that reads
    back as that float; the rounding to two fraction digits is for the
    printed line only. *)
Theorem csv_export (cwd : pystr) (cnt : Counter) (files : nat)
  (errors : list (pystr * pystr)) (o : options) (rep : report) :
  save_csv o = true ->
  print_results cwd cnt files errors o = Ok rep ->
  csv_file rep = Some (path_join cwd (lit "char_freqs.csv"),
                       csv_header :: map csv_row (results rep)) /\
  csv_header = [lit "Character"; lit "Count"; lit "Percentage"] /\
  Forall (fun r =>
            csv_row r = [row_display r; PyFloat.str_nat (row_count r);
                         PyFloat.repr (percentage_of (total cnt)
                                                     (row_count r))] /\
            In (PyFloat.ljust 4 (row_display r) ++ lit " | "
                ++ PyFloat.rjust 7 (PyFloat.commas (row_count r)) ++ lit " | "
                ++ PyFloat.rjust 6
                     (PyFloat.fixed2 (percentage_of (total cnt) (row_count r)))
                ++ lit "%") (stdout rep))
         (results rep).
Proof.
  intros Hs H. pose proof (results_spec _ _ _ _ _ H) as [E [C O]].
  rewrite Hs in C. split; [exact C|]. split; [reflexivity|].
  apply Forall_forall. intros r Hr.
  assert (Hp : row_percentage r = percentage_of (total cnt) (row_count r)).
  { rewrite E in Hr. apply in_map_iff in Hr.
    destruct Hr as [[c n] [<- _]]. reflexivity. }
  split; [unfold csv_row; now rewrite Hp|].
  rewrite <- Hp. change (In (row_line r) (stdout rep)).
  rewrite O. apply in_or_app. right. apply in_or_app. left.
  now apply in_map.
Qed.

(** ** More on the tally *)

Lemma keys_incr (c : char) (cnt : Counter) :
  keys (incr c cnt) = if in_dec N.eq_dec c (keys cnt) then keys cnt
                      else keys cnt ++ [c].
Proof.
  unfold keys. induction cnt as [|[k v] cnt IH]; simpl; [reflexivity|].
  destruct (N.eqb_spec k c) as [->|Hn]; simpl.
  - destruct (N.eq_dec c c); [reflexivity | contradiction].
  - rewrite IH. destruct (N.eq_dec k c); [contradiction|].
    now destruct (in_dec N.eq_dec c (map fst cnt)).
Qed.

Lemma keys_incr_nodup (c : char) (cnt : Counter) :
  NoDup (keys cnt) -> NoDup (keys (incr c cnt)).
Proof.
  intros H. rewrite keys_incr.
  destruct (in_dec N.eq_dec c (keys cnt)) as [Hin|Hout]; [exact H|].
  apply NoDup_app; [exact H | repeat constructor; intros [] |].
  intros x Hx [<-|[]]. contradiction.
Qed.

Lemma keys_update (cnt : Counter) (s : pystr) :
  (NoDup (keys cnt) -> NoDup (keys (update cnt s))) /\
  exists l, keys (update cnt s) = keys cnt ++ l.
Proof.
  unfold update. revert cnt; induction s as [|c s IH]; intros cnt; simpl.
  - split; [exact (fun H => H)|]. exists []. now rewrite app_nil_r.
  - destruct (IH (incr c cnt)) as [IH1 [l IH2]]. split.
    + intros H. apply IH1, keys_incr_nodup, H.
    + rewrite IH2, keys_incr.
      destruct (in_dec N.eq_dec c (keys cnt)); [now exists l|].
      exists (c :: l). now rewrite <- app_assoc.
Qed.

(** X1. The tally that [scan_repo] returns is a dict with one entry for
    each character that occurs in the contents read, and no other: its keys
    are pairwise distinct, and the entry of a character is the number of its
    occurrences in all the contents, a missing entry standing for none. *)
Theorem scan_repo_tally (fs : filesystem) (repo_path : pystr)
  (r : ScanResult) :
  scan_repo fs repo_path = Ok r ->
  let text := concat (contents fs (eligible (discovered
                                              (os_walk fs repo_path)))) in
  NoDup (keys (char_count r)) /\
  (forall c, get (char_count r) c
             = match count_occ N.eq_dec text c with
               | O => None
               | n => Some n
               end) /\
  (forall c, In c (keys (char_count r)) <-> In c text).
Proof.
  rewrite scan_repo_spec. cbv zeta.
  destruct (first_fatal fs _); [discriminate|].
  intros H; injection H as <-; cbn [char_count].
  unfold tally_of. rewrite tally_of_concat.
  set (text := concat _).
  assert (G : forall c, get (update [] text) c
                        = match count_occ N.eq_dec text c with
                          | O => None
                          | n => Some n
                          end).
  { intros c. rewrite get_update. reflexivity. }
  split; [apply keys_update; constructor|]. split; [exact G|].
  intros c. rewrite (count_occ_In N.eq_dec text).
  specialize (G c).
  assert (K : forall cnt : Counter,
             In c (keys cnt) <-> get cnt c <> None).
  { clear. unfold keys. induction cnt as [|[k v] cnt IH]; simpl.
    - split; [intros [] | congruence].
    - destruct (N.eqb_spec k c) as [->|Hn].
      + split; [discriminate | now left].
      + rewrite <- IH. split; [intros [H|H]; [contradiction | exact H]|].
        now right. }
  rewrite K, G.
  destruct (count_occ N.eq_dec text c); split; intros H;
    try congruence; try lia; discriminate.
Qed.

(** X2. A scan only adds to what it has: from any state on, the two
    loops take no count of a character down, keep the keys already in the
    tally in front in their order, take [file_count] up or leave it, and
    extend the error list at its end. *)
Theorem scan_walk_grows (fs : filesystem) (w : list walk_entry)
  (st st' : ScanResult) :
  scan_walk fs w st = Ok st' ->
  (forall c, count_of (char_count st) c <= count_of (char_count st') c) /\
  (exists l, keys (char_count st') = keys (char_count st) ++ l) /\
  file_count st <= file_count st' /\
  (exists l, error_files st' = error_files st ++ l).
Proof.
  rewrite scan_walk_paths, scan_paths_spec.
  destruct (first_fatal fs _); [discriminate|].
  intros H; injection H as <-; cbn [char_count file_count error_files].
  rewrite tally_of_concat. split; [|split; [|split]].
  - intros c. rewrite count_of_update. apply Nat.le_add_r.
  - apply keys_update.
  - apply Nat.le_add_r.
  - eauto.
Qed.

Lemma first_fatal_ext (fs1 fs2 : filesystem) (l : list pystr) :
  (forall p, In p l -> read_text fs1 p = read_text fs2 p) ->
  first_fatal fs1 l = first_fatal fs2 l /\
  contents fs1 l = contents fs2 l /\ failures fs1 l = failures fs2 l.
Proof.
  unfold contents, failures.
  induction l as [|p l IH]; intros H; simpl; [now repeat split|].
  destruct IH as [I1 [I2 I3]]; [intros q Hq; apply H; now right|].
  rewrite <- (H p (or_introl eq_refl)), I1, I2, I3. now repeat split.
Qed.

(** X3. A file that the filter skips is never opened: two file systems
    with the same tree at the root, and the same read outcome for every path
    that passes the filter, give the same scan, whatever the reads of the
    skipped paths would return or raise. *)
Theorem scan_repo_ignores_skipped (fs1 fs2 : filesystem)
  (repo_path : pystr) :
  resolve fs1 repo_path = resolve fs2 repo_path ->
  (forall p, should_skip_file p = false ->
             read_text fs1 p = read_text fs2 p) ->
  scan_repo fs1 repo_path = scan_repo fs2 repo_path.
Proof.
  intros Hr Hp. rewrite !scan_repo_spec. cbv zeta.
  assert (W : os_walk fs1 repo_path = os_walk fs2 repo_path)
    by (unfold os_walk; now rewrite Hr).
  rewrite W.
  destruct (first_fatal_ext fs1 fs2
              (eligible (discovered (os_walk fs2 repo_path))))
    as [E1 [E2 E3]].
  { intros p Hin. apply Hp. apply filter_In in Hin.
    destruct Hin as [_ Hin]. now apply negb_true_iff in Hin. }
  now rewrite E1, E2, E3.
Qed.

(** X14. Two walks that meet the same eligible paths in two orders record
    the same failures, in an order that may differ. *)
Theorem scan_errors_permuted (fs : filesystem) (w1 w2 : list walk_entry)
  (r1 r2 : ScanResult) :
  Permutation (eligible (discovered w1)) (eligible (discovered w2)) ->
  scan_walk fs w1 empty_scan = Ok r1 ->
  scan_walk fs w2 empty_scan = Ok r2 ->
  Permutation (error_files r1) (error_files r2).
Proof.
  intros HP. rewrite !scan_walk_paths, !scan_paths_spec.
  destruct (first_fatal fs (eligible (discovered w1))); [discriminate|].
  destruct (first_fatal fs (eligible (discovered w2))); [discriminate|].
  intros H1 H2. injection H1 as <-. injection H2 as <-.
  cbn [error_files app]. now apply flat_map_perm.
Qed.

(** ** More on the report *)

Lemma insert_desc_perm (x : char * nat) (l : list (char * nat)) :
  Permutation (insert_desc x l) (x :: l).
Proof.
  induction l as [|y l IH]; simpl; [reflexivity|].
  destruct (Nat.ltb (snd x) (snd y)); [|reflexivity].
  rewrite IH. apply perm_swap.
Qed.

Lemma most_common_perm (cnt : Counter) : Permutation (most_common cnt) cnt.
Proof.
  unfold most_common. induction cnt as [|x cnt IH]; simpl; [constructor|].
  rewrite insert_desc_perm. now constructor.
Qed.

Lemma insert_desc_descending (x : char * nat) (l : list (char * nat)) :
  descending snd l -> descending snd (insert_desc x l).
Proof.
  unfold descending.
  induction 1 as [|y l Hs IH Hy]; simpl; [repeat constructor|].
  destruct (Nat.ltb_spec (snd x) (snd y)) as [Hlt|Hge].
  - constructor; [exact IH|].
    apply Forall_forall. intros z Hz.
    apply insert_desc_In in Hz. destruct Hz as [->|Hz].
    + now apply Nat.lt_le_incl.
    + rewrite Forall_forall in Hy. now apply Hy.
  - constructor; [now constructor|].
    constructor; [exact Hge|].
    apply Forall_forall. intros z Hz. rewrite Forall_forall in Hy.
    etransitivity; [apply Hy, Hz | exact Hge].
Qed.

Lemma most_common_descending (cnt : Counter) :
  descending snd (most_common cnt).
Proof.
  unfold most_common. induction cnt as [|x cnt IH]; simpl.
  - constructor.
  - now apply insert_desc_descending.
Qed.

Lemma insert_desc_with_count (n : nat) (x : char * nat)
  (l : list (char * nat)) :
  with_count n (insert_desc x l) = with_count n (x :: l).
Proof.
  unfold with_count. induction l as [|y l IH]; [reflexivity|].
  cbn [insert_desc]. destruct (Nat.ltb_spec (snd x) (snd y)) as [Hlt|Hge];
    [|reflexivity].
  cbn [filter] in *. rewrite IH.
  destruct (Nat.eqb_spec (snd x) n) as [Hx|Hx];
    destruct (Nat.eqb_spec (snd y) n) as [Hy|Hy]; try reflexivity.
  exfalso. rewrite Hx, Hy in Hlt. exact (Nat.lt_irrefl _ Hlt).
Qed.

(** Items of equal count keep the order they have in the Counter. *)
Lemma most_common_stable (n : nat) (cnt : Counter) :
  with_count n (most_common cnt) = with_count n cnt.
Proof.
  unfold most_common. induction cnt as [|x cnt IH]; [reflexivity|].
  cbn [fold_right]. rewrite insert_desc_with_count.
  unfold with_count in *. cbn [filter]. now rewrite IH.
Qed.

Lemma filter_comm {A} (f g : A -> bool) (l : list A) :
  filter f (filter g l) = filter g (filter f l).
Proof.
  induction l as [|x l IH]; simpl; [reflexivity|].
  destruct (f x) eqn:Ef, (g x) eqn:Eg; simpl; rewrite ?Ef, ?Eg, IH;
    reflexivity.
Qed.

Lemma descending_filter {A} (count : A -> nat) (f : A -> bool)
  (l : list A) :
  descending count l -> descending count (filter f l).
Proof.
  unfold descending. induction 1 as [|x l Hs IH Hx]; simpl; [constructor|].
  destruct (f x); [|exact IH].
  constructor; [exact IH|].
  apply Forall_forall. intros z Hz. apply filter_In in Hz.
  rewrite Forall_forall in Hx. now apply Hx.
Qed.

Lemma descending_app {A} (count : A -> nat) (l1 l2 : list A) :
  descending count (l1 ++ l2) ->
  descending count l1 /\
  forall a b, In a l1 -> In b l2 -> count b <= count a.
Proof.
  unfold descending. induction l1 as [|x l1 IH]; simpl; intros H.
  - split; [constructor | intros a b []].
  - inversion H as [|? ? Hs Hx]; subst. destruct (IH Hs) as [I1 I2].
    split.
    + constructor; [exact I1|]. apply Forall_forall. intros z Hz.
      rewrite Forall_forall in Hx. apply Hx, in_or_app. now left.
    + intros a b [<-|Ha] Hb; [|now apply I2].
      rewrite Forall_forall in Hx. apply Hx, in_or_app. now right.
Qed.

Lemma descending_map {A B} (count : B -> nat) (f : A -> B) (l : list A) :
  descending (fun a => count (f a)) l -> descending count (map f l).
Proof.
  unfold descending. induction 1 as [|x l Hs IH Hx]; simpl; constructor;
    [exact IH|].
  apply Forall_forall. intros z Hz. apply in_map_iff in Hz.
  destruct Hz as [a [<- Ha]]. rewrite Forall_forall in Hx. now apply Hx.
Qed.

(** X4. The rows of a report come in descending order of count, and they
    are the most frequent of the qualifying characters: a qualifying
    character of the tally that has no row has a count that is no larger
    than the count of any row. *)
Theorem results_most_frequent (cwd : pystr) (cnt : Counter) (files : nat)
  (errors : list (pystr * pystr)) (o : options) (rep : report) :
  print_results cwd cnt files errors o = Ok rep ->
  descending row_count (results rep) /\
  (forall c n, In (c, n) cnt -> qualifies o c = true ->
     ~ In (make_row (total cnt) (c, n)) (results rep) ->
     forall r, In r (results rep) -> n <= row_count r).
Proof.
  intros H. apply results_spec in H. destruct H as [E _]. rewrite E.
  unfold shown.
  set (q := filter (fun it => qualifies o (fst it)) (most_common cnt)).
  set (k := Z.to_nat (Z.max 1 (top_n o - Z.of_nat 0))).
  assert (D : descending snd (firstn k q ++ skipn k q)).
  { rewrite firstn_skipn. apply descending_filter, most_common_descending. }
  apply descending_app in D. destruct D as [D1 D2]. split.
  - apply descending_map. exact D1.
  - intros c n Hin Hq Hout r Hr.
    apply in_map_iff in Hr. destruct Hr as [[c' n'] [<- Hr]]. cbn.
    assert (Hc : In (c, n) q).
    { apply filter_In. split; [|exact Hq].
      eapply Permutation_in; [symmetry; apply most_common_perm | exact Hin]. }
    rewrite <- (firstn_skipn k q) in Hc. apply in_app_or in Hc.
    destruct Hc as [Hc|Hc].
    + exfalso. apply Hout. now apply in_map.
    + exact (D2 (c', n') (c, n) Hr Hc).
Qed.

Lemma rows_with_count (n t : nat) (l : list (char * nat)) :
  filter (fun r => Nat.eqb (row_count r) n) (map (make_row t) l)
  = map (make_row t) (with_count n l).
Proof.
  unfold with_count. induction l as [|x l IH]; simpl; [reflexivity|].
  destruct (Nat.eqb (snd x) n); simpl; now rewrite IH.
Qed.

(** X5. Characters of equal count come in the order in which the scan met
    them first: the rows of a given count are, in order, the rows of the
    first qualifying items of that count in the tally. *)
Theorem results_ties_in_tally_order (cwd : pystr) (cnt : Counter)
  (files : nat) (errors : list (pystr * pystr)) (o : options)
  (rep : report) (n : nat) :
  print_results cwd cnt files errors o = Ok rep ->
  exists rest,
    map (make_row (total cnt))
        (filter (fun it => qualifies o (fst it)) (with_count n cnt))
    = filter (fun r => Nat.eqb (row_count r) n) (results rep) ++ rest.
Proof.
  intros H. apply results_spec in H. destruct H as [E _].
  unfold shown in E. rewrite E.
  set (q := filter (fun it => qualifies o (fst it)) (most_common cnt)).
  set (k := Z.to_nat (Z.max 1 (top_n o - Z.of_nat 0))).
  exists (map (make_row (total cnt)) (with_count n (skipn k q))).
  rewrite rows_with_count, <- map_app. f_equal.
  unfold with_count at 2 3. rewrite <- filter_app, firstn_skipn.
  unfold q. rewrite filter_comm.
  fold (with_count n (most_common cnt)). now rewrite most_common_stable.
Qed.

(** X6. The options are obeyed by every row: a row shows a character of the
    tally with its count; with [exclude_letters] on it is no letter, and
    with [show_spaces] off it is no whitespace character and is displayed
    as itself. *)
Theorem results_obey_options (cwd : pystr) (cnt : Counter) (files : nat)
  (errors : list (pystr * pystr)) (o : options) (rep : report) :
  print_results cwd cnt files errors o = Ok rep ->
  forall r, In r (results rep) ->
  exists c, In (c, row_count r) cnt /\ row_display r = char_display c /\
            (exclude_letters o = true -> isalpha c = false) /\
            (show_spaces o = false ->
             isspace c = false /\ row_display r = [c]).
Proof.
  intros H r Hr. apply results_spec in H. destruct H as [E _].
  rewrite E in Hr. apply in_map_iff in Hr.
  destruct Hr as [[c n] [<- Hx]]. apply shown_In in Hx.
  destruct Hx as [Hx Hq]. apply most_common_In in Hx.
  exists c. cbn [make_row row_count row_display fst snd] in *.
  split; [exact Hx|]. split; [reflexivity|].
  unfold qualifies in Hq. apply andb_true_iff in Hq. destruct Hq as [Q1 Q2].
  apply negb_true_iff in Q1, Q2. split.
  - intros He. rewrite He in Q1. exact Q1.
  - intros Hs. rewrite Hs, andb_true_r in Q2.
    split; [exact Q2|]. unfold char_display. now rewrite Q2.
Qed.

Lemma char_display_inj (c1 c2 : char) :
  char_display c1 = char_display c2 -> c1 = c2.
Proof.
  unfold char_display.
  destruct (isspace c1) eqn:S1, (isspace c2) eqn:S2.
  - destruct (N.eqb_spec c1 SPACE) as [->|N1],
             (N.eqb_spec c2 SPACE) as [->|N2]; try discriminate;
      congruence.
  - destruct (N.eqb c1 SPACE); discriminate.
  - destruct (N.eqb c2 SPACE); discriminate.
  - congruence.
Qed.

Lemma map_inj_nodup {A B} (f : A -> B) (l : list A) :
  (forall a b, f a = f b -> a = b) -> NoDup l -> NoDup (map f l).
Proof.
  intros Hf. induction 1 as [|x l Hx Hl IH]; simpl; constructor;
    [|exact IH].
  intros Hin. apply in_map_iff in Hin. destruct Hin as [y [Ey Hy]].
  apply Hf in Ey. subst. contradiction.
Qed.

(** X7. The display form tells the character: two characters with the same
    display form are the same.  So the report of a scan has no two rows for
    the same display form, and the [Character] column of its CSV file has no
    value twice. *)
Theorem results_display_unique (fs : filesystem) (repo_path cwd : pystr)
  (o : options) (r : ScanResult) (rep : report) :
  scan_repo fs repo_path = Ok r ->
  print_results cwd (char_count r) (file_count r) (error_files r) o
  = Ok rep ->
  (forall c1 c2, char_display c1 = char_display c2 -> c1 = c2) /\
  NoDup (map row_display (results rep)) /\
  NoDup (map (fun fields => hd [] fields) (tl (csv_rows (Ok rep)))).
Proof.
  intros Hs Hp. split; [exact char_display_inj|].
  assert (N : NoDup (map row_display (results rep))).
  { apply results_spec in Hp. destruct Hp as [E _]. rewrite E.
    rewrite map_map. cbn [make_row row_display].
    assert (K : NoDup (keys (char_count r))).
    { rewrite scan_repo_spec in Hs. cbv zeta in Hs.
      destruct (first_fatal fs _); [discriminate|].
      injection Hs as <-. cbn [char_count].
      unfold tally_of. rewrite tally_of_concat.
      apply keys_update. constructor. }
    assert (K2 : NoDup (keys (shown o 0 (most_common (char_count r))))).
    { unfold shown, keys.
      set (q := filter _ (most_common (char_count r))).
      assert (Kq : NoDup (map fst q)).
      { unfold q. clear -K.
        assert (Km : NoDup (map fst (most_common (char_count r)))).
        { eapply Permutation_NoDup; [|exact K].
          apply Permutation_map. symmetry. apply most_common_perm. }
        induction (most_common (char_count r)) as [|x l IH]; simpl;
          [constructor|].
        inversion Km as [|? ? Hx Hl]; subst.
        destruct (qualifies o (fst x)); [|now apply IH].
        simpl. constructor; [|now apply IH].
        intros Hin. apply Hx. apply in_map_iff in Hin.
        destruct Hin as [y [Ey Hy]]. apply filter_In in Hy.
        apply in_map_iff. exists y. tauto. }
      rewrite <- (firstn_skipn (Z.to_nat (Z.max 1 (top_n o - Z.of_nat 0))) q)
        in Kq.
      rewrite map_app in Kq. now apply NoDup_app_remove_r in Kq. }
    unfold keys in K2.
    rewrite <- (map_map fst char_display).
    apply map_inj_nodup; [exact char_display_inj | exact K2]. }
  split; [exact N|].
  pose proof (results_spec _ _ _ _ _ Hp) as [_ [C _]].
  cbn [csv_rows]. rewrite C. destruct (save_csv o); cbn [tl map];
    [|constructor].
  rewrite map_map. exact N.
Qed.

(** ** More on the filter *)

Lemma rfind_none (c : char) (s : pystr) : ~ In c s -> rfind c s = None.
Proof.
  induction s as [|x s IH]; simpl; intros H; [reflexivity|].
  rewrite IH by (intros Hin; apply H; now right).
  destruct (N.eqb_spec x c) as [->|_]; [|reflexivity].
  exfalso. apply H. now left.
Qed.

Lemma rfind_last (c : char) (s r : pystr) :
  ~ In c r -> rfind c (s ++ c :: r) = Some (length s).
Proof.
  intros H. induction s as [|x s IH]; simpl.
  - now rewrite rfind_none, N.eqb_refl.
  - now rewrite IH.
Qed.

Lemma lstrip_plain (n : pystr) : ~ In SEP n -> lstrip SEP n = n.
Proof.
  destruct n as [|x n]; simpl; intros H; [reflexivity|].
  destruct (N.eqb_spec x SEP) as [->|_]; [|reflexivity].
  exfalso. apply H. now left.
Qed.

Lemma tail_split (a n : pystr) :
  ~ In SEP n ->
  exists l, split SEP (lstrip SEP (a ++ SEP :: n)) = l ++ [n].
Proof.
  intros H. induction a as [|c a IH].
  - cbn [app lstrip]. rewrite N.eqb_refl, lstrip_plain, split_no_sep
      by exact H. now exists [].
  - cbn [app lstrip]. destruct (N.eqb_spec c SEP) as [->|Hn]; [exact IH|].
    change (c :: a ++ SEP :: n) with ((c :: a) ++ SEP :: n).
    rewrite split_app, (@split_no_sep SEP n H). eauto.
Qed.

(** The name of a path is its last component. *)
Lemma name_last (a n : pystr) :
  ~ In SEP n -> n <> [] -> n <> [DOT] ->
  name (a ++ SEP :: n) = n /\ name n = n.
Proof.
  intros H H0 H1.
  assert (K : negb (str_eqb n []) && negb (str_eqb n [DOT]) = true).
  { apply andb_true_iff. split; apply negb_true_iff, not_true_is_false;
      rewrite str_eqb_eq; assumption. }
  unfold name, path_tail. split.
  - destruct (@tail_split a n H) as [l ->].
    rewrite filter_app. cbn [filter]. rewrite K. apply last_last.
  - rewrite lstrip_plain, split_no_sep by exact H.
    cbn [filter]. now rewrite K.
Qed.

Lemma ascii_tolower_keeps (c d : char) :
  d = DOT \/ d = SEP -> (ascii_tolower c = d <-> c = d).
Proof.
  unfold ascii_tolower, DOT, SEP.
  destruct (N.leb_spec 65 c), (N.leb_spec c 90); simpl;
    intros [->| ->]; split; intros; subst; try reflexivity; lia.
Qed.

Lemma plain_extension_lower (e : pystr) :
  plain_extension (map ascii_tolower e) = true -> plain_extension e = true.
Proof.
  destruct e as [|d r]; [exact (fun H => H)|]. cbn [map plain_extension].
  rewrite length_map, !andb_true_iff, !N.eqb_eq. intros [[Hd Hl] Hr].
  split; [split; [|exact Hl]|].
  - now apply (ascii_tolower_keeps d (or_introl eq_refl)).
  - rewrite forallb_forall in *. intros c Hc.
    specialize (Hr (ascii_tolower c) (in_map _ _ _ Hc)).
    apply andb_true_iff in Hr. destruct Hr as [R1 R2].
    apply negb_true_iff in R1, R2. apply N.eqb_neq in R1, R2.
    apply andb_true_iff.
    split; apply negb_true_iff, N.eqb_neq; intros ->.
    + now apply R1.
    + now apply R2.
Qed.

Lemma plain_extension_shape (e : pystr) :
  plain_extension e = true ->
  exists r, e = DOT :: r /\ r <> [] /\ ~ In DOT r /\ ~ In SEP r.
Proof.
  destruct e as [|d r]; [discriminate|]. cbn [plain_extension].
  rewrite !andb_true_iff, N.eqb_eq. intros [[-> Hl] Hr].
  exists r. split; [reflexivity|]. split.
  - intros ->. discriminate Hl.
  - rewrite forallb_forall in Hr.
    split; intros Hin; apply Hr in Hin; apply andb_true_iff in Hin;
      destruct Hin as [R1 R2]; apply negb_true_iff in R1, R2;
      apply N.eqb_neq in R1, R2; congruence.
Qed.

Lemma skip_extensions_plain :
  forall x, In x skip_extensions -> plain_extension x = true.
Proof.
  exact (proj1 (forallb_forall plain_extension skip_extensions) eq_refl).
Qed.

(** The suffix of a name that ends with an extension. *)
Lemma suffix_of_name (a stem r : pystr) :
  stem <> [] -> ~ In SEP stem -> r <> [] -> ~ In DOT r -> ~ In SEP r ->
  suffix (a ++ SEP :: stem ++ DOT :: r) = DOT :: r /\
  suffix (stem ++ DOT :: r) = DOT :: r.
Proof.
  intros Hs Hsep Hr Hdot Hrsep.
  set (n := stem ++ DOT :: r).
  assert (H1 : ~ In SEP n).
  { unfold n. intros Hin. apply in_app_or in Hin.
    destruct Hin as [Hin|[Hin|Hin]]; [contradiction | discriminate Hin
                                      | contradiction]. }
  assert (H2 : n <> []) by (unfold n; now destruct stem).
  assert (H3 : n <> [DOT]).
  { unfold n. destruct stem as [|x [|y stem]]; [congruence| |discriminate].
    destruct r; [congruence | discriminate]. }
  assert (S : (let m := n in
               match rfind DOT m with
               | Some i => if Nat.ltb 0 i && Nat.ltb i (length m - 1)
                           then skipn i m else []
               | None => []
               end) = DOT :: r).
  { cbv zeta. unfold n. rewrite rfind_last by exact Hdot.
    assert (L1 : Nat.ltb 0 (length stem) = true).
    { apply Nat.ltb_lt. destruct stem; [congruence | simpl; lia]. }
    assert (L2 : Nat.ltb (length stem)
                         (length (stem ++ DOT :: r) - 1) = true).
    { apply Nat.ltb_lt. rewrite length_app. simpl.
      destruct r; [congruence | simpl; lia]. }
    rewrite L1, L2. cbn [andb].
    rewrite skipn_app, skipn_all, Nat.sub_diag. reflexivity. }
  destruct (@name_last a n H1 H2 H3) as [N1 N2].
  unfold suffix. fold n. rewrite N1, N2. now split.
Qed.

(** C3. [should_skip_file] answers true exactly when the lower-cased suffix
    of the path is one of the excluded extensions or one of the parts of the
    path is one of the excluded directory names.  A path whose suffix is
    empty is not skipped by the extension rule, so only the directory rule
    decides it; a path one of whose parts is [node_modules] is skipped, and
    so is every path that has [/node_modules/] anywhere in it.

    The lower-casing is that of [str.lower]: on an ASCII string it takes
    every code point from 65 to 90 up by 32 and leaves the others.  On the
    text of a path: a name made of a stem and an ASCII extension has that
    extension for its suffix; it is skipped when the extension taken to
    lower case is excluded, and, when it is not excluded and no part of the
    path is an excluded name, the path is not skipped. *)
Theorem should_skip_file_spec (filepath : pystr) :
  (should_skip_file filepath = true <->
     In (lower (suffix filepath)) skip_extensions \/
     exists part, In part (parts filepath) /\ In part skip_dirs) /\
  (suffix filepath = [] ->
     ~ In (lower (suffix filepath)) skip_extensions /\
     should_skip_file filepath
     = existsb (fun part => str_in part skip_dirs) (parts filepath)) /\
  (In (lit "node_modules") (parts filepath) ->
     should_skip_file filepath = true) /\
  (forall a b, filepath = a ++ lit "/node_modules/" ++ b ->
     should_skip_file filepath = true) /\
  (forall s, forallb is_ascii s = true ->
     length (lower s) = length s /\
     forall i c, nth_error s i = Some c ->
       nth_error (lower s) i
       = Some (if N.leb 65 c && N.leb c 90 then c + 32 else c)%N) /\
  (forall dir stem e,
     filepath = dir ++ SEP :: stem ++ e \/ filepath = stem ++ e ->
     stem <> [] -> ~ In SEP stem -> forallb is_ascii e = true ->
     In (lower e) skip_extensions ->
     suffix filepath = e /\ should_skip_file filepath = true) /\
  (forall dir stem r,
     filepath = dir ++ SEP :: stem ++ DOT :: r ->
     stem <> [] -> ~ In SEP stem ->
     r <> [] -> ~ In DOT r -> ~ In SEP r ->
     forallb is_ascii r = true ->
     ~ In (lower (DOT :: r)) skip_extensions ->
     (forall part, In part (parts filepath) -> ~ In part skip_dirs) ->
     suffix filepath = DOT :: r /\ should_skip_file filepath = false).
Proof.
  split; [|split; [|split; [|split; [|split; [|split]]]]].
  - unfold should_skip_file.
    destruct (str_in (lower (suffix filepath)) skip_extensions) eqn:Ee.
    + split; [|reflexivity]. intros _. left. now apply str_in_In.
    + destruct (existsb _ (parts filepath)) eqn:Ed.
      * split; [|reflexivity]. intros _. right. now apply dir_rule_In.
      * split; [discriminate|]. intros [H|H].
        -- apply str_in_In in H. congruence.
        -- apply dir_rule_In in H. congruence.
  - intros Hs. rewrite Hs.
    assert (E : str_in (lower []) skip_extensions = false) by reflexivity.
    split.
    + intros H. apply str_in_In in H. congruence.
    + unfold should_skip_file. rewrite Hs, E.
      now destruct (existsb _ (parts filepath)).
  - apply skipped_by_dir. exact node_modules_skip_dir.
  - intros a b ->.
    apply (skipped_by_dir _ node_modules_skip_dir).
    apply component_in_parts; try discriminate.
    change (lit "/node_modules/" ++ b)
      with (SEP :: lit "node_modules" ++ SEP :: b).
    rewrite split_app, split_app. apply in_or_app. right.
    apply in_or_app. left.
    rewrite split_no_sep; [now left|].
    pose proof skip_dirs_plain as F. inversion F as [|? ? [_ [_ H]] _].
    exact H.
  - intros s Hs. unfold lower. rewrite Hs.
    split; [apply length_map|].
    intros i c Hc. rewrite nth_error_map, Hc. reflexivity.
  - intros dir stem e Hp Hs Hsep Ha Hin.
    assert (L : lower e = map ascii_tolower e)
      by (unfold lower; now rewrite Ha).
    pose proof Hin as Hplain. rewrite L in Hplain.
    apply skip_extensions_plain, plain_extension_lower,
      plain_extension_shape in Hplain.
    destruct Hplain as [r [-> [Hr [Hd Hrs]]]].
    destruct (@suffix_of_name dir stem r Hs Hsep Hr Hd Hrs) as [S1 S2].
    assert (S : suffix filepath = DOT :: r)
      by (destruct Hp as [-> | ->]; assumption).
    split; [exact S|].
    unfold should_skip_file. rewrite S.
    now rewrite (proj2 (str_in_In _ _) Hin).
  - intros dir stem r -> Hs Hsep Hr Hd Hrs Ha Hout Hparts.
    destruct (@suffix_of_name dir stem r Hs Hsep Hr Hd Hrs) as [S1 _].
    split; [exact S1|].
    unfold should_skip_file. rewrite S1.
    destruct (str_in (lower (DOT :: r)) skip_extensions) eqn:Ee.
    + exfalso. apply Hout. now apply str_in_In.
    + destruct (existsb _ (parts _)) eqn:Ed; [|reflexivity].
      exfalso. apply dir_rule_In in Ed. destruct Ed as [part [P1 P2]].
      exact (Hparts part P1 P2).
Qed.

(** X8. A file whose name ends with an excluded extension, in upper or
    lower case, after a stem that is not empty, is skipped in whatever
    directory it lies. *)
Theorem excluded_extension_skipped (dir stem e : pystr) :
  stem <> [] -> ~ In SEP stem ->
  forallb is_ascii e = true ->
  In (map ascii_tolower e) skip_extensions ->
  should_skip_file (dir ++ SEP :: stem ++ e) = true /\
  should_skip_file (stem ++ e) = true.
Proof.
  intros Hs Hsep Ha Hin.
  pose proof (@skip_extensions_plain _ Hin) as Hp.
  apply plain_extension_lower, plain_extension_shape in Hp.
  destruct Hp as [r [-> [Hr [Hd Hrs]]]].
  destruct (@suffix_of_name dir stem r Hs Hsep Hr Hd Hrs) as [S1 S2].
  assert (E : str_in (lower (DOT :: r)) skip_extensions = true).
  { unfold lower. rewrite Ha. now apply str_in_In. }
  unfold should_skip_file. now rewrite S1, S2, E.
Qed.

(** X9. The extension rule leaves alone a name without a dot, a name whose
    only dot is its first character (a file called [.json]) and a name that
    ends with a dot: the suffix of such a path is empty, and only the names
    of the directories decide whether it is skipped. *)
Theorem no_extension_not_skipped (dir n : pystr) :
  n <> [] -> n <> [DOT] -> ~ In SEP n ->
  (~ In DOT n \/ (exists r, n = DOT :: r /\ ~ In DOT r)
   \/ exists s, n = s ++ [DOT]) ->
  suffix (dir ++ SEP :: n) = [] /\
  should_skip_file (dir ++ SEP :: n)
  = existsb (fun part => str_in part skip_dirs) (parts (dir ++ SEP :: n)).
Proof.
  intros H0 H1 Hsep Hn.
  assert (S : suffix (dir ++ SEP :: n) = []).
  { unfold suffix. destruct (@name_last dir n Hsep H0 H1) as [-> _].
    destruct Hn as [Hn|[[r [-> Hn]]|[s ->]]].
    - now rewrite rfind_none.
    - change (DOT :: r) with ([] ++ DOT :: r).
      rewrite (@rfind_last DOT [] r Hn). reflexivity.
    - rewrite (@rfind_last DOT s [] (fun H => H)).
      rewrite length_app. cbn [length].
      replace (length s + 1 - 1) with (length s) by lia.
      now rewrite Nat.ltb_irrefl, andb_false_r. }
  split; [exact S|].
  unfold should_skip_file. rewrite S.
  change (str_in (lower []) skip_extensions) with false.
  now destruct (existsb _ _).
Qed.

Lemma rows_loop_zero (o : options) (items : list (char * nat))
  (res : list row) (out : list pystr) :
  rows_loop o 0 items res out =
  if existsb (fun it => qualifies o (fst it)) items
  then Raise {| exn_cls := ZeroDivisionError;
                exn_str := lit "division by zero" |}
  else Ok (res, out).
Proof.
  induction items as [|[c n] items IH]; [reflexivity|].
  cbn [rows_loop existsb fst].
  change (qualifies o c)
    with (negb (exclude_letters o && isalpha c)
          && negb (isspace c && negb (show_spaces o))).
  destruct (exclude_letters o && isalpha c); cbn [negb andb orb];
    [exact IH|].
  destruct (isspace c && negb (show_spaces o)); cbn [negb andb orb];
    [exact IH | reflexivity].
Qed.

Lemma existsb_perm {A} (f : A -> bool) (l1 l2 : list A) :
  Permutation l1 l2 -> existsb f l1 = existsb f l2.
Proof.
  induction 1 as [|x l1 l2 _ IH|x y l|l1 l2 l3 _ IH1 _ IH2]; simpl.
  - reflexivity.
  - now rewrite IH.
  - now destruct (f x), (f y).
  - now rewrite IH1.
Qed.

Lemma existsb_none {A} (f : A -> bool) (l : list A) (x : A) :
  existsb f l = false -> In x l -> f x = false.
Proof.
  intros H Hin. destruct (f x) eqn:E; [|reflexivity].
  rewrite <- H. symmetry. apply existsb_exists. eauto.
Qed.

(** X15. A report comes only from a Counter whose counts do not add up to
    0, or none of whose keys qualifies for a row; and a [ZeroDivisionError]
    comes only from the opposite case, where the counts add up to 0 and a
    key qualifies, so that the loop reaches the division. *)
Theorem print_results_zero_total (cwd : pystr) (cnt : Counter) (files : nat)
  (errors : list (pystr * pystr)) (o : options) :
  (forall rep, print_results cwd cnt files errors o = Ok rep ->
     total cnt <> 0 \/
     forall c n, In (c, n) cnt -> qualifies o c = false) /\
  (forall e, print_results cwd cnt files errors o = Raise e ->
     exn_cls e = ZeroDivisionError ->
     total cnt = 0 /\
     exists c n, In (c, n) cnt /\ qualifies o c = true).
Proof.
  unfold print_results.
  destruct (Nat.eq_dec (total cnt) 0) as [Hz|Hnz].
  - rewrite Hz, rows_loop_zero.
    rewrite (existsb_perm _ (most_common_perm cnt)).
    destruct (existsb _ cnt) eqn:E; cbn [bind]; split;
      try (intros ? H; discriminate H).
    + intros e _ _. split; [reflexivity|].
      apply existsb_exists in E. destruct E as [[c n] [Hin Hq]]. eauto.
    + intros rep _. right. intros c n Hin.
      exact (existsb_none _ _ (c, n) E Hin).
  - destruct (rows_loop_ok o (most_common cnt) []
                [ NL :: lit "Processed " ++ PyFloat.str_nat files
                     ++ lit " files";
                  lit "Total characters: " ++ PyFloat.commas (total cnt);
                  NL :: lit "Top character frequencies:";
                  lit "Char | Count | Percentage";
                  repeat 45%N 30 ] Hnz) as [[res out] E].
    rewrite E. cbn [bind]. split.
    + intros rep _. now left.
    + intros e H. discriminate H.
Qed.

(** ** The program *)

(** X11. The whole program, when it returns: no read of a path that
    passes the filter raised an exception outside the three kinds, and the
    lines printed are the path scanned, the number of files read, the number
    of characters read in all, with commas, the head of the table, a line for
    each row, and the closing lines with one line for each file that could
    not be read, in the order of discovery; the file asked of the CSV writer
    is that of the report. *)
Theorem main_returns (cwd : pystr) (fs : filesystem) (repo_path : pystr)
  (o : options) (rep : report) :
  main cwd fs repo_path o = Ok rep ->
  let passed := eligible (discovered (os_walk fs repo_path)) in
  first_fatal fs passed = None /\
  stdout rep =
  [ lit "Scanning repository: " ++ repo_path;
    NL :: lit "Processed "
       ++ PyFloat.str_nat (length (contents fs passed))
       ++ lit " files";
    lit "Total characters: "
       ++ PyFloat.commas
            (list_sum (map (@length char) (contents fs passed)));
    NL :: lit "Top character frequencies:";
    lit "Char | Count | Percentage";
    repeat 45%N 30 ]
  ++ map row_line (results rep)
  ++ closing_lines cwd (failures fs passed) o /\
  csv_file rep =
  (if save_csv o
   then Some (path_join cwd (lit "char_freqs.csv"),
              csv_header :: map csv_row (results rep))
   else None).
Proof.
  cbv zeta. unfold main. rewrite scan_repo_spec. cbv zeta.
  destruct (first_fatal fs _) eqn:F; cbn [bind]; [discriminate|].
  cbn [char_count file_count error_files].
  set (cs := contents fs _). set (fl := failures fs _).
  destruct (print_results cwd (tally_of cs) (length cs) fl o)
    as [rep0|e] eqn:Hrep; cbn [bind]; [|discriminate].
  intros H; injection H as <-. cbn [stdout results csv_file].
  apply results_spec in Hrep. destruct Hrep as [_ [C ->]].
  split; [reflexivity|]. split; [|exact C].
  unfold summary_lines, tally_of. rewrite total_fold_update.
  reflexivity.
Qed.

(** ** Excluded directories *)

(** X12. Every excluded directory name acts at any depth and on files as
    well: a path with a component equal to one of the names is skipped,
    whether the component is a directory on the way, the first component, or
    the name of the file itself. *)
Theorem excluded_name_skipped (d a b : pystr) :
  In d skip_dirs ->
  should_skip_file (a ++ SEP :: d ++ SEP :: b) = true /\
  should_skip_file (d ++ SEP :: b) = true /\
  should_skip_file (a ++ SEP :: d) = true.
Proof.
  intros Hd.
  pose proof skip_dirs_plain as F. rewrite Forall_forall in F.
  destruct (F d Hd) as [H0 [H1 Hs]].
  pose proof (@split_no_sep SEP d Hs) as Sd.
  repeat split; apply (skipped_by_dir _ Hd);
    apply component_in_parts; try assumption.
  - rewrite !split_app, Sd. apply in_or_app. right. now left.
  - rewrite split_app, Sd. now left.
  - rewrite split_app, Sd. apply in_or_app. right. now left.
Qed.

Lemma endswith_sep_inv (t : pystr) :
  endswith_sep t = true -> exists t', t = t' ++ [SEP].
Proof.
  unfold endswith_sep. intros H. rewrite <- (rev_involutive t).
  destruct (rev t) as [|c l]; [discriminate|].
  apply N.eqb_eq in H. subst. simpl. eauto.
Qed.

Lemma startswith_sep_plain (nm : pystr) :
  existsb (N.eqb SEP) nm = false -> startswith_sep nm = false.
Proof.
  destruct nm as [|c nm]; cbn [existsb startswith_sep]; [reflexivity|].
  intros H. apply orb_false_iff in H. destruct H as [H _].
  now rewrite N.eqb_sym.
Qed.

(** A component of a directory path is a component of the paths joined
    to it. *)
Lemma split_join (d top nm : pystr) :
  d <> [] -> existsb (N.eqb SEP) nm = false ->
  In d (split SEP top) -> In d (split SEP (path_join top nm)).
Proof.
  intros Hd Hnm Hin. unfold path_join.
  rewrite (startswith_sep_plain nm Hnm).
  destruct top as [|c top]; [destruct Hin as [H|[]]; congruence|].
  destruct (endswith_sep (c :: top)) eqn:E.
  - apply endswith_sep_inv in E. destruct E as [t' E]. rewrite E in *.
    rewrite split_app in Hin. rewrite <- app_assoc. cbn [app].
    rewrite split_app. apply in_or_app. left.
    apply in_app_or in Hin. destruct Hin as [H|[H|[]]]; [exact H|congruence].
  - rewrite split_app. apply in_or_app. now left.
Qed.

Lemma walk_under (d : pystr) (Hd : d <> []) :
  forall n top, valid_names n = true -> In d (split SEP top) ->
  forall p, In p (discovered (walk top n)) -> In d (split SEP p).
Proof.
  fix IH 1. intros [|[es|]|] top Hv Hin p Hp; try (now destruct Hp).
  cbn [walk discovered flat_map fst snd] in Hp.
  apply in_app_or in Hp. destruct Hp as [Hp|Hp].
  - apply in_map_iff in Hp. destruct Hp as [f [<- Hf]].
    apply split_join; [exact Hd | | exact Hin].
    apply in_map_iff in Hf. destruct Hf as [[nm ch] [<- Hf]].
    apply filter_In in Hf. destruct Hf as [Hf _]. cbn [fst].
    cbn [valid_names] in Hv. clear -Hv Hf.
    induction es as [|[nm' ch'] es IHes]; [destruct Hf|].
    apply andb_true_iff in Hv. destruct Hv as [Hv1 Hv2].
    apply andb_true_iff in Hv1. destruct Hv1 as [Hv1 _].
    destruct Hf as [Hf|Hf].
    + injection Hf as -> _. now apply negb_true_iff in Hv1.
    + now apply IHes.
  - cbn [valid_names] in Hv. revert Hv Hp.
    induction es as [|[nm ch] es IHes]; intros Hv Hp; [destruct Hp|].
    apply andb_true_iff in Hv. destruct Hv as [Hv1 Hv2].
    apply andb_true_iff in Hv1. destruct Hv1 as [Hv1 Hv1'].
    fold (discovered (walk (path_join top nm) ch ++
            (fix subdirs (es : list (pystr * node)) : list walk_entry :=
               match es with
               | [] => []
               | (nm, child) :: es' =>
                   walk (path_join top nm) child ++ subdirs es'
               end) es)) in Hp.
    unfold discovered in Hp. rewrite flat_map_app in Hp.
    apply in_app_or in Hp. destruct Hp as [Hp|Hp].
    + apply (IH ch (path_join top nm) Hv1'); [|exact Hp].
      apply split_join; [exact Hd | now apply negb_true_iff | exact Hin].
    + now apply IHes.
Qed.

(** X13. A root below an excluded name yields nothing: when one component
    of the root path is an excluded directory name, every file of the tree is
    skipped, and [scan_repo] returns the empty result without a read. *)
Theorem scan_repo_root_excluded (fs : filesystem) (repo_path d : pystr)
  (n : node) :
  resolve fs repo_path = Some n -> valid_names n = true ->
  In d skip_dirs -> In d (split SEP repo_path) ->
  eligible (discovered (os_walk fs repo_path)) = [] /\
  scan_repo fs repo_path = Ok empty_scan.
Proof.
  intros Hr Hv Hd Hin.
  pose proof skip_dirs_plain as F. rewrite Forall_forall in F.
  destruct (F d Hd) as [H0 [H1 _]].
  assert (E : eligible (discovered (os_walk fs repo_path)) = []).
  { unfold os_walk. rewrite Hr. unfold eligible.
    pose proof (walk_under H0 n repo_path Hv Hin) as Hall.
    induction (discovered (walk repo_path n)) as [|p l IHl];
      [reflexivity|].
    cbn [filter].
    rewrite (skipped_by_dir p Hd), IHl.
    - reflexivity.
    - intros q Hq. apply Hall. now right.
    - apply component_in_parts; [exact H0 | exact H1 |].
      apply Hall. now left. }
  split; [exact E|].
  rewrite scan_repo_spec. cbv zeta. rewrite E. reflexivity.
Qed.

End Program.

(** * The statements on sample inputs *)

Lemma should_skip_file_spec_witness :
  should_skip_file sample_lower (lit "repo/img/Photo.JPG") = true /\
  should_skip_file sample_lower (lit "repo/main.go") = false /\
  should_skip_file sample_lower (lit "repo/node_modules/Makefile") = true /\
  ~ In (lower sample_lower (suffix (lit "repo/Makefile"))) skip_extensions /\
  nth_error (lower sample_lower (lit ".JPG")) 1 = Some 106%N.
Proof.
  split; [|split; [|split; [|split]]].
  - destruct (should_skip_file_spec sample_lower (lit "repo/img/Photo.JPG"))
      as [_ [_ [_ [_ [_ [H _]]]]]].
    apply (H (lit "repo/img") (lit "Photo") (lit ".JPG")).
    + left. reflexivity.
    + discriminate.
    + not_in.
    + reflexivity.
    + vm_compute. do 6 right. left. reflexivity.
  - destruct (should_skip_file_spec sample_lower (lit "repo/main.go"))
      as [_ [_ [_ [_ [_ [_ H]]]]]].
    apply (H (lit "repo") (lit "main") (lit "go")).
    + reflexivity.
    + discriminate.
    + not_in.
    + discriminate.
    + not_in.
    + not_in.
    + reflexivity.
    + not_in.
    + intros part Hp. vm_compute in Hp.
      destruct Hp as [<-|[<-|[]]]; not_in.
  - apply (should_skip_file_spec sample_lower
             (lit "repo/node_modules/Makefile")).
    vm_compute. right. left. reflexivity.
  - apply (should_skip_file_spec sample_lower (lit "repo/Makefile")).
    reflexivity.
  - destruct (should_skip_file_spec sample_lower (lit "repo/img/Photo.JPG"))
      as [_ [_ [_ [_ [H _]]]]].
    exact (proj2 (H (lit ".JPG") eq_refl) 1 74%N eq_refl).
Defined.

Lemma scan_repo_counts_witness :
  scan_repo sample_lower sample_fs (lit "repo") = Ok sample_scan /\
  file_count sample_scan + length (error_files sample_scan) = 3.
Proof.
  split; [reflexivity|].
  exact (proj1 (proj2 (scan_repo_counts sample_lower sample_fs (lit "repo")
                         (r := sample_scan) eq_refl))).
Defined.

Lemma scan_repo_total_witness :
  total (char_count sample_scan) = 8.
Proof.
  exact (scan_repo_total sample_lower sample_fs (lit "repo")
           (r := sample_scan) eq_refl).
Defined.

Lemma scan_order_independent_witness :
  exists r2,
    scan_walk sample_lower sample_fs (rev (os_walk sample_fs (lit "repo")))
              empty_scan = Ok r2 /\
    dict_eq (char_count sample_scan) (char_count r2) /\
    file_count sample_scan = file_count r2.
Proof.
  apply (scan_order_independent sample_lower sample_fs
           (os_walk sample_fs (lit "repo"))
           (rev (os_walk sample_fs (lit "repo"))) (r1 := sample_scan)).
  - vm_compute.
    eapply perm_trans; [apply perm_swap | apply perm_skip, perm_swap].
  - reflexivity.
Defined.

Lemma scan_repo_missing_root_witness :
  scan_repo sample_lower sample_fs (lit "nowhere") = Ok empty_scan /\
  scan_repo sample_lower sample_fs (lit "empty")
  = scan_repo sample_lower sample_fs (lit "nowhere").
Proof.
  destruct (scan_repo_missing_root sample_lower sample_fs (lit "nowhere")
              eq_refl) as [H1 H2].
  split; [exact H1 | exact (H2 sample_fs (lit "empty") eq_refl)].
Defined.

Lemma scan_repo_failures_witness :
  (exists e', scan_repo sample_lower sample_fs_fatal (lit "odd") = Raise e' /\
              caught e' = false) /\
  scan_file sample_lower sample_fs (lit "repo/sub/b.bin") empty_scan
  = Ok {| char_count := []; file_count := 0;
          error_files := [(lit "repo/sub/b.bin", exn_str decode_error)] |}.
Proof.
  split.
  - apply (proj1 (proj2 (proj2
             (scan_repo_failures sample_lower sample_fs_fatal (lit "odd"))))
             (lit "odd/pipe") is_a_directory).
    + vm_compute. right. left. reflexivity.
    + reflexivity.
    + reflexivity.
  - apply (proj1 (proj2
             (scan_repo_failures sample_lower sample_fs (lit "repo")))
             (lit "repo/sub/b.bin") empty_scan decode_error);
      reflexivity.
Defined.

Lemma print_results_no_zero_division_witness :
  exists rep,
    print_results sample_isalpha (lit "/home/u") (char_count sample_scan)
                  (file_count sample_scan) (error_files sample_scan)
                  sample_options = Ok rep.
Proof.
  destruct (print_results_no_zero_division sample_lower sample_isalpha
              sample_fs (lit "repo") (lit "/home/u") sample_options
              (r := sample_scan) eq_refl) as [_ [rep [H _]]].
  exists rep. exact H.
Defined.

(** C5. With a top limit of 0 and a tally of one qualifying character,
    [print_results] prints one row and hands it to the CSV writer as well,
    where a limit of N calls for N rows at most. *)
Theorem print_results_top_zero :
  exists rep,
    print_results sample_isalpha (lit "/home/u") [(97%N, 1)] 1 []
                  sample_options_top0 = Ok rep /\
    results rep = [make_row 1 (97%N, 1)] /\
    In (lit "a    |       1 | 100.00%") (stdout rep) /\
    csv_rows (Ok rep) = [csv_header; [lit "a"; lit "1"; lit "100.0"]].
Proof.
  eexists. split; [reflexivity|]. split; [reflexivity|].
  split; [|reflexivity].
  vm_compute. do 5 right. left. reflexivity.
Qed.

(** The tab is a whitespace character, and its display form has the raw
    tab in it: the display form of a whitespace character is not free of
    the character. *)
Lemma char_display_keeps_raw_char :
  isspace TAB = true /\ char_display TAB = [BACKSLASH; TAB] /\
  ~ (forall c, isspace c = true -> ~ In c (char_display c)).
Proof.
  split; [reflexivity|]. split; [reflexivity|].
  intros H. apply (H TAB eq_refl). right. now left.
Qed.

Lemma whitespace_display_witness :
  exists rep,
    print_results sample_isalpha (lit "/home/u") (char_count sample_scan)
                  (file_count sample_scan) (error_files sample_scan)
                  sample_options = Ok rep /\
    char_display SPACE = [QUOTE; SPACE; QUOTE] /\
    In SPACE (char_display SPACE) /\ char_display SPACE <> [SPACE].
Proof.
  eexists. split; [reflexivity|].
  refine (proj2 (whitespace_display sample_isalpha (lit "/home/u")
                   (char_count sample_scan) (file_count sample_scan)
                   (error_files sample_scan) sample_options _) SPACE eq_refl).
  reflexivity.
Defined.

(** For a file of content [aabbcc] the three rows handed to the CSV
    writer have the float in full, where the printed lines have 33.33: the
    third field of a row is not always a number with two fraction digits. *)
Lemma csv_percentage_in_full :
  csv_rows (print_results sample_isalpha (lit "/home/u")
              (update [] (lit "aabbcc")) 1 [] sample_options)
  = [ csv_header;
      [lit "a"; lit "2"; lit "33.33333333333333"];
      [lit "b"; lit "2"; lit "33.33333333333333"];
      [lit "c"; lit "2"; lit "33.33333333333333"] ] /\
  two_fraction_digits (lit "33.33333333333333") = false /\
  ~ (forall cnt o, save_csv o = true ->
       Forall (fun fields => two_fraction_digits (nth 2 fields []) = true)
              (tl (csv_rows (print_results sample_isalpha (lit "/home/u")
                               cnt 1 [] o)))).
Proof.
  split; [vm_compute; reflexivity|]. split; [reflexivity|].
  intros H.
  specialize (H (update [] (lit "aabbcc")) sample_options eq_refl).
  vm_compute in H. inversion H as [|? ? Hd _]. discriminate Hd.
Qed.

Lemma csv_export_witness :
  exists rep,
    print_results sample_isalpha (lit "/home/u") (char_count sample_scan)
                  (file_count sample_scan) (error_files sample_scan)
                  sample_options = Ok rep /\
    csv_file rep
    = Some (lit "/home/u/char_freqs.csv",
            csv_header :: map csv_row (results rep)).
Proof.
  eexists. split; [reflexivity|].
  refine (proj1 (csv_export sample_isalpha (lit "/home/u")
                   (char_count sample_scan) (file_count sample_scan)
                   (error_files sample_scan) sample_options eq_refl _)).
  reflexivity.
Defined.

(** * The further statements on sample inputs *)

Lemma scan_repo_tally_witness : NoDup (keys (char_count sample_scan)).
Proof.
  exact (proj1 (scan_repo_tally sample_lower sample_fs (lit "repo")
                  (r := sample_scan) eq_refl)).
Defined.

Lemma scan_walk_grows_witness :
  exists st',
    scan_walk sample_lower sample_fs (os_walk sample_fs (lit "repo"))
              sample_scan = Ok st' /\
    file_count sample_scan <= file_count st'.
Proof.
  eexists. split; [reflexivity|].
  refine (proj1 (proj2 (proj2
            (scan_walk_grows sample_lower sample_fs
               (os_walk sample_fs (lit "repo")) sample_scan _)))).
  reflexivity.
Defined.

Lemma scan_repo_ignores_skipped_witness :
  scan_repo sample_lower sample_fs (lit "repo")
  = scan_repo sample_lower sample_fs_locked (lit "repo").
Proof.
  apply (scan_repo_ignores_skipped sample_lower sample_fs sample_fs_locked
           (lit "repo")).
  - reflexivity.
  - intros p Hs. cbn [read_text sample_fs_locked].
    destruct (str_eqb p (lit "repo/a.txt")) eqn:E; [|reflexivity].
    apply str_eqb_eq in E. subst p. vm_compute in Hs. discriminate Hs.
Defined.

Lemma results_most_frequent_witness :
  exists rep,
    print_results sample_isalpha (lit "/home/u") (char_count sample_scan)
                  (file_count sample_scan) (error_files sample_scan)
                  sample_options = Ok rep /\
    descending row_count (results rep).
Proof.
  eexists. split; [reflexivity|].
  refine (proj1 (results_most_frequent sample_isalpha (lit "/home/u")
                   (char_count sample_scan) (file_count sample_scan)
                   (error_files sample_scan) sample_options _)).
  reflexivity.
Defined.

Lemma results_ties_in_tally_order_witness :
  exists rep,
    print_results sample_isalpha (lit "/home/u") (char_count sample_scan)
                  (file_count sample_scan) (error_files sample_scan)
                  sample_options = Ok rep /\
    exists rest,
      map (make_row (total (char_count sample_scan)))
          (filter (fun it => qualifies sample_isalpha sample_options (fst it))
                  (with_count 2 (char_count sample_scan)))
      = filter (fun r => Nat.eqb (row_count r) 2) (results rep) ++ rest.
Proof.
  eexists. split; [reflexivity|].
  refine (results_ties_in_tally_order sample_isalpha (lit "/home/u")
            (char_count sample_scan) (file_count sample_scan)
            (error_files sample_scan) sample_options 2 _).
  reflexivity.
Defined.

Lemma results_obey_options_witness :
  exists rep,
    print_results sample_isalpha (lit "/home/u") (char_count sample_scan)
                  (file_count sample_scan) (error_files sample_scan)
                  sample_options_top0 = Ok rep /\
    forall r, In r (results rep) ->
    exists c, In (c, row_count r) (char_count sample_scan) /\
              row_display r = char_display c /\
              (exclude_letters sample_options_top0 = true ->
               sample_isalpha c = false) /\
              (show_spaces sample_options_top0 = false ->
               isspace c = false /\ row_display r = [c]).
Proof.
  eexists. split; [reflexivity|].
  refine (results_obey_options sample_isalpha (lit "/home/u")
            (char_count sample_scan) (file_count sample_scan)
            (error_files sample_scan) sample_options_top0 _).
  reflexivity.
Defined.

Lemma results_display_unique_witness :
  exists rep,
    print_results sample_isalpha (lit "/home/u") (char_count sample_scan)
                  (file_count sample_scan) (error_files sample_scan)
                  sample_options = Ok rep /\
    NoDup (map row_display (results rep)).
Proof.
  eexists. split; [reflexivity|].
  refine (proj1 (proj2
            (results_display_unique sample_lower sample_isalpha sample_fs
               (lit "repo") (lit "/home/u") sample_options
               (r := sample_scan) eq_refl _))).
  reflexivity.
Defined.

Lemma excluded_extension_skipped_witness :
  should_skip_file sample_lower
    (lit "repo/img" ++ SEP :: lit "Photo" ++ lit ".JPG") = true.
Proof.
  apply (excluded_extension_skipped sample_lower (lit "repo/img")
           (stem := lit "Photo") (lit ".JPG")).
  - discriminate.
  - not_in.
  - reflexivity.
  - vm_compute. do 6 right. left. reflexivity.
Defined.

Lemma no_extension_not_skipped_witness :
  suffix (lit "repo" ++ SEP :: lit ".json") = [].
Proof.
  apply (no_extension_not_skipped sample_lower (lit "repo")
           (n := lit ".json")).
  - discriminate.
  - discriminate.
  - not_in.
  - right. left. exists (lit "json"). split; [reflexivity | not_in].
Defined.

Lemma results_length_witness :
  exists rep,
    print_results sample_isalpha (lit "/home/u") (char_count sample_scan)
                  (file_count sample_scan) (error_files sample_scan)
                  sample_options = Ok rep /\
    length (results rep) = 4.
Proof.
  eexists. split; [reflexivity|].
  refine (results_length sample_isalpha (lit "/home/u")
            (char_count sample_scan) (file_count sample_scan)
            (error_files sample_scan) sample_options _).
  reflexivity.
Defined.

Lemma excluded_name_skipped_witness :
  should_skip_file sample_lower (lit "repo/pkg" ++ SEP :: lit "dist") = true.
Proof.
  apply (excluded_name_skipped sample_lower (d := lit "dist")
           (lit "repo/pkg") (lit "x")).
  vm_compute. do 8 right. left. reflexivity.
Defined.

Lemma scan_repo_root_excluded_witness :
  scan_repo sample_lower sample_fs_under_build (lit "build/repo")
  = Ok empty_scan.
Proof.
  apply (scan_repo_root_excluded sample_lower sample_fs_under_build
           (lit "build/repo") (d := lit "build") (n := sample_tree)).
  - reflexivity.
  - reflexivity.
  - vm_compute. do 7 right. left. reflexivity.
  - vm_compute. left. reflexivity.
Defined.

Lemma scan_errors_permuted_witness :
  exists r2,
    scan_walk sample_lower sample_fs (rev (os_walk sample_fs (lit "repo")))
              empty_scan = Ok r2 /\
    Permutation (error_files sample_scan) (error_files r2).
Proof.
  eexists. split; [reflexivity|].
  refine (scan_errors_permuted sample_lower sample_fs
            (os_walk sample_fs (lit "repo"))
            (rev (os_walk sample_fs (lit "repo")))
            (r1 := sample_scan) _ _ _).
  - vm_compute.
    eapply perm_trans; [apply perm_swap | apply perm_skip, perm_swap].
  - reflexivity.
  - reflexivity.
Defined.

Lemma main_returns_witness :
  exists rep,
    main sample_lower sample_isalpha (lit "/home/u") sample_fs (lit "repo")
         sample_options = Ok rep /\
    first_fatal sample_fs
      (eligible sample_lower (discovered (os_walk sample_fs (lit "repo"))))
    = None.
Proof.
  eexists. split; [reflexivity|].
  refine (proj1 (main_returns sample_lower sample_isalpha (lit "/home/u")
                   sample_fs (lit "repo") sample_options _)).
  reflexivity.
Defined.

Lemma print_results_zero_total_witness :
  (exists rep,
     print_results sample_isalpha (lit "/home/u") (char_count sample_scan)
                   (file_count sample_scan) (error_files sample_scan)
                   sample_options = Ok rep /\
     (total (char_count sample_scan) <> 0 \/
      forall c n, In (c, n) (char_count sample_scan) ->
                  qualifies sample_isalpha sample_options c = false)) /\
  (total [(97%N, 0)] = 0 /\
   exists c n, In (c, n) [(97%N, 0)] /\
               qualifies sample_isalpha sample_options c = true).
Proof.
  split.
  - eexists. split; [reflexivity|].
    refine (proj1 (print_results_zero_total sample_isalpha (lit "/home/u")
                     (char_count sample_scan) (file_count sample_scan)
                     (error_files sample_scan) sample_options) _ _).
    reflexivity.
  - refine (proj2 (print_results_zero_total sample_isalpha (lit "/home/u")
                     [(97%N, 0)] 1 [] sample_options)
                  {| exn_cls := ZeroDivisionError;
                     exn_str := lit "division by zero" |} _ _);
      reflexivity.
Defined.
